(** * The CasADi dispatch layer of the [navi_test] optimizer

    A shallow embedding of
    [mpc_solver/navi_test/icasadi_navi_test/extern/interface.c]:
    the packed workspace [uxip_space], the two copy routines and the four
    dispatch functions, over an explicit memory of typed blocks. *)

From Stdlib Require Import ZArith Lia PrimFloat.
From stdpp Require Import base option list gmap.

Local Open Scope Z_scope.

(** ** Scalars and compile-time constants *)

(** [#define casadi_real double], [#define casadi_int long long int]. *)
Definition casadi_real : Type := float.
Definition casadi_int : Type := Z.

(** Figures of the header comment of the file ([vars], [parameters]). *)
Definition metadata_vars : Z := 40.
Definition metadata_parameters : Z := 2658.

Definition NU_NAVI_TEST : Z := 40.
Definition NP_NAVI_TEST : Z := 2673.
Definition N1_NAVI_TEST : Z := 40.
Definition N2_NAVI_TEST : Z := 15.
Definition NXI_NAVI_TEST : Z := 41.

(** The size macros come from [casadi_memory.h], which is not part of the
    file: they are taken as parameters. *)
Class casadi_memory_h := CasadiMemory {
  COST_SZ_ARG_NAVI_TEST : Z;
  COST_SZ_IW_NAVI_TEST : Z;
  COST_SZ_W_NAVI_TEST : Z;
  COST_SZ_RES_NAVI_TEST : Z;
  GRAD_SZ_ARG_NAVI_TEST : Z;
  GRAD_SZ_IW_NAVI_TEST : Z;
  GRAD_SZ_W_NAVI_TEST : Z;
  GRAD_SZ_RES_NAVI_TEST : Z;
  F1_SZ_ARG_NAVI_TEST : Z;
  F1_SZ_IW_NAVI_TEST : Z;
  F1_SZ_W_NAVI_TEST : Z;
  F1_SZ_RES_NAVI_TEST : Z;
  F2_SZ_ARG_NAVI_TEST : Z;
  F2_SZ_IW_NAVI_TEST : Z;
  F2_SZ_W_NAVI_TEST : Z;
  F2_SZ_RES_NAVI_TEST : Z
}.

(** ** Memory: typed blocks and pointers *)

Inductive kernel_id := Cost | Grad | MapF1 | MapF2.

(** The objects a pointer can point into: a buffer owned by the caller, or
    one of the file's [static] arrays. *)
Inductive block :=
  | Caller (n : nat)
  | Uxip
  | IWork (k : kernel_id)
  | RWork (k : kernel_id)
  | ResSlot (k : kernel_id).

Inductive ptr := NULL | Ptr (b : block) (ofs : Z).

#[global] Instance kernel_id_eq_dec : EqDecision kernel_id.
Proof. solve_decision. Defined.

#[global] Instance block_eq_dec : EqDecision block.
Proof. solve_decision. Defined.

#[global] Instance ptr_eq_dec : EqDecision ptr.
Proof. solve_decision. Defined.

Definition kernel_id_code (k : kernel_id) : nat :=
  match k with Cost => 0 | Grad => 1 | MapF1 => 2 | MapF2 => 3 end%nat.

Definition kernel_id_of_code (n : nat) : kernel_id :=
  match n with 0 => Cost | 1 => Grad | 2 => MapF1 | _ => MapF2 end%nat.

#[global] Instance kernel_id_countable : Countable kernel_id.
Proof.
  refine (inj_countable' kernel_id_code kernel_id_of_code _).
  by intros [].
Defined.

Definition block_code (b : block) : nat + (unit + (kernel_id + (kernel_id + kernel_id))) :=
  match b with
  | Caller n => inl n
  | Uxip => inr (inl tt)
  | IWork k => inr (inr (inl k))
  | RWork k => inr (inr (inr (inl k)))
  | ResSlot k => inr (inr (inr (inr k)))
  end.

Definition block_of_code (c : nat + (unit + (kernel_id + (kernel_id + kernel_id)))) : block :=
  match c with
  | inl n => Caller n
  | inr (inl _) => Uxip
  | inr (inr (inl k)) => IWork k
  | inr (inr (inr (inl k))) => RWork k
  | inr (inr (inr (inr k))) => ResSlot k
  end.

#[global] Instance block_countable : Countable block.
Proof.
  refine (inj_countable' block_code block_of_code _).
  by intros [].
Defined.

(** One store per element type: [casadi_real] arrays, [casadi_int] arrays
    and arrays of [casadi_real*]. *)
Record mem := Mem {
  reals : gmap block (list casadi_real);
  ints : gmap block (list casadi_int);
  ptrs : gmap block (list ptr)
}.

Definition ptr_add (p : ptr) (i : Z) : ptr :=
  match p with
  | NULL => NULL
  | Ptr b o => Ptr b (o + i)
  end.

Infix "+ₚ" := ptr_add (at level 50, left associativity).

(** ** The state-and-failure monad of the embedding

    A computation threads the memory and fails ([None]) where the C program
    has undefined behaviour (a read or write outside an object). *)

Definition M (A : Type) : Type := mem → option (A * mem).

#[global] Instance M_ret : MRet M := λ A x m, Some (x, m).

#[global] Instance M_bind : MBind M := λ A B f c m,
  match c m with
  | Some (x, m') => f x m'
  | None => None
  end.

(** [a[k]] for a caller-supplied array of pointers passed by value. *)
Definition deref (a : list ptr) (k : nat) : M ptr := λ m,
  match a !! k with
  | Some p => Some (p, m)
  | None => None
  end.

Definition load_real (p : ptr) : M casadi_real := λ m,
  match p with
  | Ptr b o =>
      if bool_decide (0 ≤ o) then
        match reals m !! b with
        | Some c =>
            match c !! Z.to_nat o with
            | Some x => Some (x, m)
            | None => None
            end
        | None => None
        end
      else None
  | NULL => None
  end.

Definition store_real (p : ptr) (x : casadi_real) : M unit := λ m,
  match p with
  | Ptr b o =>
      match reals m !! b with
      | Some c =>
          if bool_decide (0 ≤ o < Z.of_nat (length c)) then
            Some (tt, Mem (<[b := <[Z.to_nat o := x]> c]> (reals m)) (ints m) (ptrs m))
          else None
      | None => None
      end
  | NULL => None
  end.

Definition load_ptr (p : ptr) : M ptr := λ m,
  match p with
  | Ptr b o =>
      if bool_decide (0 ≤ o) then
        match ptrs m !! b with
        | Some c =>
            match c !! Z.to_nat o with
            | Some x => Some (x, m)
            | None => None
            end
        | None => None
        end
      else None
  | NULL => None
  end.

Definition store_ptr (p : ptr) (x : ptr) : M unit := λ m,
  match p with
  | Ptr b o =>
      match ptrs m !! b with
      | Some c =>
          if bool_decide (0 ≤ o < Z.of_nat (length c)) then
            Some (tt, Mem (reals m) (ints m) (<[b := <[Z.to_nat o := x]> c]> (ptrs m)))
          else None
      | None => None
      end
  | NULL => None
  end.

(** [for (i = 0; i < N; i++) body(i)]. *)
Fixpoint for_from (n : nat) (i : Z) (body : Z → M unit) : M unit :=
  match n with
  | O => mret tt
  | S n' => body i ≫= λ _, for_from n' (i + 1) body
  end.

Definition for_lt (N : Z) (body : Z → M unit) : M unit :=
  for_from (Z.to_nat N) 0 body.

(** ** The packed workspace and the copy routines *)

(** [static casadi_real uxip_space[NU + NXI + NP]]; as an expression the
    array denotes the address of its first element. *)
Definition uxip_space : ptr := Ptr Uxip 0.

Definition sizeof_uxip_space : Z :=
  NU_NAVI_TEST + NXI_NAVI_TEST + NP_NAVI_TEST.

Definition copy_args_into_uxip_space (arg : list ptr) : M unit :=
  for_lt NU_NAVI_TEST (λ i,
    a ← deref arg 0; x ← load_real (a +ₚ i);
    store_real (uxip_space +ₚ i) x);;
  for_lt NXI_NAVI_TEST (λ i,
    a ← deref arg 1; x ← load_real (a +ₚ i);
    store_real (uxip_space +ₚ (NU_NAVI_TEST + i)) x);;
  for_lt NP_NAVI_TEST (λ i,
    a ← deref arg 2; x ← load_real (a +ₚ i);
    store_real (uxip_space +ₚ (NU_NAVI_TEST + NXI_NAVI_TEST + i)) x).

Definition copy_args_into_up_space (arg : list ptr) : M unit :=
  for_lt NU_NAVI_TEST (λ i,
    a ← deref arg 0; x ← load_real (a +ₚ i);
    store_real (uxip_space +ₚ i) x);;
  for_lt NP_NAVI_TEST (λ i,
    a ← deref arg 1; x ← load_real (a +ₚ i);
    store_real (uxip_space +ₚ (NU_NAVI_TEST + NXI_NAVI_TEST + i)) x).

(** ** Static objects and the four dispatch functions *)

(** The signature shared by the generated kernels:
    [int f(const casadi_real** arg, casadi_real** res, casadi_int* iw,
           casadi_real* w, void* mem)].
    The argument array is a local of the caller and is passed by value. *)
Definition casadi_fn : Type := list ptr → ptr → ptr → ptr → ptr → M Z.

(** The four [extern] kernels, defined in the generated C files. *)
Class casadi_kernels := CasadiKernels {
  open_phi_navi_test : casadi_fn;
  open_grad_phi_navi_test : casadi_fn;
  open_mapping_f1_navi_test : casadi_fn;
  open_mapping_f2_navi_test : casadi_fn
}.

(** [T a[size] = { init }]: the listed initialisers, then zeros (null). *)
Definition array_init (size : Z) (init : list ptr) : list ptr :=
  resize (Z.to_nat size) NULL init.

(** [#if SIZE > 0  static T name[SIZE];  #else  static T *name = NULL;]
    The value of [name] in an expression. *)
Definition static_array (size : Z) (b : block) : ptr :=
  if bool_decide (0 < size) then Ptr b 0 else NULL.

Section Dispatch.
Context `{casadi_memory_h}.

Definition allocated_i_workspace_cost : ptr :=
  static_array COST_SZ_IW_NAVI_TEST (IWork Cost).
Definition allocated_i_workspace_grad : ptr :=
  static_array GRAD_SZ_IW_NAVI_TEST (IWork Grad).
Definition allocated_i_workspace_f1 : ptr :=
  static_array F1_SZ_IW_NAVI_TEST (IWork MapF1).
Definition allocated_i_workspace_f2 : ptr :=
  static_array F2_SZ_IW_NAVI_TEST (IWork MapF2).

Definition allocated_r_workspace_cost : ptr :=
  static_array COST_SZ_W_NAVI_TEST (RWork Cost).
Definition allocated_r_workspace_grad : ptr :=
  static_array GRAD_SZ_W_NAVI_TEST (RWork Grad).
Definition allocated_r_workspace_f1 : ptr :=
  static_array F1_SZ_W_NAVI_TEST (RWork MapF1).
Definition allocated_r_workspace_f2 : ptr :=
  static_array F2_SZ_W_NAVI_TEST (RWork MapF2).

Definition result_space_cost : ptr :=
  static_array COST_SZ_RES_NAVI_TEST (ResSlot Cost).
Definition result_space_grad : ptr :=
  static_array GRAD_SZ_RES_NAVI_TEST (ResSlot Grad).
Definition result_space_f1 : ptr :=
  static_array F1_SZ_RES_NAVI_TEST (ResSlot MapF1).
Definition result_space_f2 : ptr :=
  static_array F2_SZ_RES_NAVI_TEST (ResSlot MapF2).

Context `{casadi_kernels}.

Definition cost_function_navi_test (arg res : list ptr) : M Z :=
  let args__ := array_init COST_SZ_ARG_NAVI_TEST
                  [uxip_space;
                   uxip_space +ₚ NU_NAVI_TEST;
                   uxip_space +ₚ NU_NAVI_TEST +ₚ NXI_NAVI_TEST] in
  copy_args_into_uxip_space arg;;
  r ← deref res 0; store_ptr (result_space_cost +ₚ 0) r;;
  open_phi_navi_test args__ result_space_cost
    allocated_i_workspace_cost allocated_r_workspace_cost NULL.

Definition grad_cost_function_navi_test (arg res : list ptr) : M Z :=
  let args__ := array_init GRAD_SZ_ARG_NAVI_TEST
                  [uxip_space;
                   uxip_space +ₚ NU_NAVI_TEST;
                   uxip_space +ₚ NU_NAVI_TEST +ₚ NXI_NAVI_TEST] in
  copy_args_into_uxip_space arg;;
  r ← deref res 0; store_ptr (result_space_grad +ₚ 0) r;;
  open_grad_phi_navi_test args__ result_space_grad
    allocated_i_workspace_grad allocated_r_workspace_grad NULL.

Definition mapping_f1_function_navi_test (arg res : list ptr) : M Z :=
  let args__ := array_init F1_SZ_ARG_NAVI_TEST
                  [uxip_space;
                   uxip_space +ₚ NU_NAVI_TEST +ₚ NXI_NAVI_TEST] in
  copy_args_into_up_space arg;;
  r ← deref res 0; store_ptr (result_space_f1 +ₚ 0) r;;
  open_mapping_f1_navi_test args__ result_space_f1
    allocated_i_workspace_f1 allocated_r_workspace_f1 NULL.

Definition mapping_f2_function_navi_test (arg res : list ptr) : M Z :=
  let args__ := array_init F2_SZ_ARG_NAVI_TEST
                  [uxip_space;
                   uxip_space +ₚ NU_NAVI_TEST +ₚ NXI_NAVI_TEST] in
  copy_args_into_up_space arg;;
  r ← deref res 0; store_ptr (result_space_f2 +ₚ 0) r;;
  open_mapping_f2_navi_test args__ result_space_f2
    allocated_i_workspace_f2 allocated_r_workspace_f2 NULL.

(** The four entry points and their kernels, indexed by kernel. *)
Definition dispatch (k : kernel_id) : list ptr → list ptr → M Z :=
  match k with
  | Cost => cost_function_navi_test
  | Grad => grad_cost_function_navi_test
  | MapF1 => mapping_f1_function_navi_test
  | MapF2 => mapping_f2_function_navi_test
  end.

Definition kernel_of (k : kernel_id) : casadi_fn :=
  match k with
  | Cost => open_phi_navi_test
  | Grad => open_grad_phi_navi_test
  | MapF1 => open_mapping_f1_navi_test
  | MapF2 => open_mapping_f2_navi_test
  end.

(** The statics and size macros of a kernel, by kernel. *)
Definition SZ_ARG (k : kernel_id) : Z :=
  match k with
  | Cost => COST_SZ_ARG_NAVI_TEST
  | Grad => GRAD_SZ_ARG_NAVI_TEST
  | MapF1 => F1_SZ_ARG_NAVI_TEST
  | MapF2 => F2_SZ_ARG_NAVI_TEST
  end.

Definition SZ_IW (k : kernel_id) : Z :=
  match k with
  | Cost => COST_SZ_IW_NAVI_TEST
  | Grad => GRAD_SZ_IW_NAVI_TEST
  | MapF1 => F1_SZ_IW_NAVI_TEST
  | MapF2 => F2_SZ_IW_NAVI_TEST
  end.

Definition SZ_W (k : kernel_id) : Z :=
  match k with
  | Cost => COST_SZ_W_NAVI_TEST
  | Grad => GRAD_SZ_W_NAVI_TEST
  | MapF1 => F1_SZ_W_NAVI_TEST
  | MapF2 => F2_SZ_W_NAVI_TEST
  end.

Definition SZ_RES (k : kernel_id) : Z :=
  match k with
  | Cost => COST_SZ_RES_NAVI_TEST
  | Grad => GRAD_SZ_RES_NAVI_TEST
  | MapF1 => F1_SZ_RES_NAVI_TEST
  | MapF2 => F2_SZ_RES_NAVI_TEST
  end.

Definition allocated_i_workspace (k : kernel_id) : ptr :=
  match k with
  | Cost => allocated_i_workspace_cost
  | Grad => allocated_i_workspace_grad
  | MapF1 => allocated_i_workspace_f1
  | MapF2 => allocated_i_workspace_f2
  end.

Definition allocated_r_workspace (k : kernel_id) : ptr :=
  match k with
  | Cost => allocated_r_workspace_cost
  | Grad => allocated_r_workspace_grad
  | MapF1 => allocated_r_workspace_f1
  | MapF2 => allocated_r_workspace_f2
  end.

Definition result_space (k : kernel_id) : ptr :=
  match k with
  | Cost => result_space_cost
  | Grad => result_space_grad
  | MapF1 => result_space_f1
  | MapF2 => result_space_f2
  end.
End Dispatch.

(** ** Observations on a memory *)

Definition slice {A} (l : list A) (lo n : Z) : list A :=
  take (Z.to_nat n) (drop (Z.to_nat lo) l).

(** The [n] reals stored from [p] on, when they all lie inside [p]'s block. *)
Definition read_vec (m : mem) (p : ptr) (n : Z) : option (list casadi_real) :=
  match p with
  | Ptr b o =>
      match reals m !! b with
      | Some c =>
          if bool_decide (0 ≤ o ∧ 0 ≤ n ∧ o + n ≤ Z.of_nat (length c))
          then Some (slice c o n) else None
      | None => None
      end
  | NULL => None
  end.

(** The file's arrays are [static]: a pointer handed in by a caller can only
    point into a caller-owned buffer. *)
Definition caller_owned (p : ptr) : bool :=
  match p with
  | Ptr (Caller _) _ => true
  | _ => false
  end.

(** The vector of length [n] the caller passes as [arg[k]]. *)
Definition input_vec (m : mem) (arg : list ptr) (k : nat) (n : Z)
  : option (list casadi_real) :=
  match arg !! k with
  | Some p => if caller_owned p then read_vec m p n else None
  | None => None
  end.

(** The input vectors of a call, as the caller passes them: [(u, xi, p)] to
    the cost and its gradient, [(u, p)] to the two mappings. *)
Definition caller_inputs (k : kernel_id) (m : mem) (arg : list ptr)
  : option (list (list casadi_real)) :=
  match k with
  | Cost | Grad =>
      u ← input_vec m arg 0 NU_NAVI_TEST;
      xi ← input_vec m arg 1 NXI_NAVI_TEST;
      p ← input_vec m arg 2 NP_NAVI_TEST;
      Some [u; xi; p]
  | MapF1 | MapF2 =>
      u ← input_vec m arg 0 NU_NAVI_TEST;
      p ← input_vec m arg 1 NP_NAVI_TEST;
      Some [u; p]
  end.

(** Memory updates by block. *)
Definition set_real (b : block) (c : list casadi_real) (m : mem) : mem :=
  Mem (<[b := c]> (reals m)) (ints m) (ptrs m).

Definition set_int (b : block) (c : list casadi_int) (m : mem) : mem :=
  Mem (reals m) (<[b := c]> (ints m)) (ptrs m).

Definition set_ptrs (g : gmap block (list ptr)) (m : mem) : mem :=
  Mem (reals m) (ints m) g.

(** The memory with the packed workspace holding [w]. *)
Definition with_uxip (w : list casadi_real) (m : mem) : mem :=
  set_real Uxip w m.

(** The memory with entry [0] of kernel [k]'s result slot bound to [r]. *)
Definition with_result_slot (k : kernel_id) (r : ptr) (m : mem) : mem :=
  set_ptrs (alter (<[0%nat := r]>) (ResSlot k) (ptrs m)) m.

(** What the packed workspace holds after the copy routine of kernel [k]
    ran on inputs [ins] over previous contents [w]. *)
Definition packed (k : kernel_id) (ins : list (list casadi_real))
    (w : list casadi_real) : list casadi_real :=
  match k, ins with
  | (Cost | Grad), [u; xi; p] => u ++ xi ++ p
  | (MapF1 | MapF2), [u; p] => u ++ slice w NU_NAVI_TEST NXI_NAVI_TEST ++ p
  | _, _ => w
  end.

Definition uxip_contents (m : mem) : list casadi_real :=
  default [] (reals m !! Uxip).

(** The memory when the kernel of [k] is entered: inputs packed, result
    slot bound to the caller's output pointer [r]. *)
Definition at_invoke (k : kernel_id) (ins : list (list casadi_real))
    (r : ptr) (m : mem) : mem :=
  with_result_slot k r (with_uxip (packed k ins (uxip_contents m)) m).

(** The base pointers of the three regions of the packed workspace. *)
Definition workspace_at (off : Z) : ptr := Ptr Uxip off.

Definition region_bases (k : kernel_id) : list ptr :=
  match k with
  | Cost | Grad =>
      [workspace_at 0; workspace_at NU_NAVI_TEST;
       workspace_at (NU_NAVI_TEST + NXI_NAVI_TEST)]
  | MapF1 | MapF2 =>
      [workspace_at 0; workspace_at (NU_NAVI_TEST + NXI_NAVI_TEST)]
  end.

(** The argument view in words: base pointers at the offsets [0], [Nu] and
    [Nu + Nxi] of the packed workspace. *)
Definition claimed_view (k : kernel_id) : list ptr :=
  match k with
  | Cost | Grad =>
      [uxip_space +ₚ 0; uxip_space +ₚ NU_NAVI_TEST;
       uxip_space +ₚ (NU_NAVI_TEST + NXI_NAVI_TEST)]
  | MapF1 | MapF2 =>
      [uxip_space +ₚ 0; uxip_space +ₚ (NU_NAVI_TEST + NXI_NAVI_TEST)]
  end.

(** The copy routine each dispatch function uses. *)
Definition pack (k : kernel_id) : list ptr → M unit :=
  match k with
  | Cost | Grad => copy_args_into_uxip_space
  | MapF1 | MapF2 => copy_args_into_up_space
  end.

Section Layout.
Context `{casadi_memory_h}.

Definition argument_view (k : kernel_id) : list ptr :=
  array_init (SZ_ARG k) (region_bases k).

Definition has_length {A} (g : gmap block (list A)) (b : block) (n : Z) : bool :=
  match g !! b with
  | Some c => bool_decide (Z.of_nat (length c) = n)
  | None => false
  end.

(** A static array of a positive declared size exists with that size. *)
Definition declared {A} (g : gmap block (list A)) (b : block) (size : Z) : bool :=
  if bool_decide (0 < size) then has_length g b size else true.

(** The static arrays are laid out as the file declares them. *)
Definition layout_ok (m : mem) : bool :=
  has_length (reals m) Uxip sizeof_uxip_space
  && forallb (λ k,
       declared (ints m) (IWork k) (SZ_IW k)
       && declared (reals m) (RWork k) (SZ_W k)
       && declared (ptrs m) (ResSlot k) (SZ_RES k))
     [Cost; Grad; MapF1; MapF2].

Definition static_zeros {A} (zero : A) (b : block) (size : Z)
    (g : gmap block (list A)) : gmap block (list A) :=
  if bool_decide (0 < size) then <[b := replicate (Z.to_nat size) zero]> g else g.

(** The statics at program start (zero-initialised), next to the caller's
    buffers [heap]. *)
Definition static_init (heap : gmap block (list casadi_real)) : mem :=
  Mem
    (<[Uxip := replicate (Z.to_nat sizeof_uxip_space) 0%float]>
       (foldr (λ k, static_zeros 0%float (RWork k) (SZ_W k)) heap
          [Cost; Grad; MapF1; MapF2]))
    (foldr (λ k, static_zeros 0 (IWork k) (SZ_IW k)) ∅
       [Cost; Grad; MapF1; MapF2])
    (foldr (λ k, static_zeros NULL (ResSlot k) (SZ_RES k)) ∅
       [Cost; Grad; MapF1; MapF2]).
End Layout.

(** ** The generated kernels *)

(** Modelled from the spec: the four generated kernels
    ([auto_casadi_cost.c], [auto_casadi_grad.c], [auto_casadi_mapping_f1.c],
    [auto_casadi_mapping_f2.c]) are only declared [extern] in the file.  The
    spec describes a kernel as an opaque numerical function with a fixed call
    signature (arguments, outputs, scratch, status code), which reads only
    the regions it is declared to need, writes its output through the result
    slot, and uses its scratch arenas for internal computation, distinct from
    its logical inputs and outputs.  So a kernel is a status and an output
    vector computed from the argument vectors, and an update of its scratch
    arenas. *)
Record kernel_model := KernelModel {
  k_value : list (list casadi_real) → Z * list casadi_real;
  k_scratch : list (list casadi_real) → list casadi_int → list casadi_real
              → list casadi_int * list casadi_real
}.

(** Modelled from the spec: the lengths of the arguments each kernel is
    declared to read, [(u, xi, p)] for the cost and its gradient and
    [(u, p)] for the two mappings. *)
Definition declared_inputs (k : kernel_id) : list Z :=
  match k with
  | Cost | Grad => [NU_NAVI_TEST; NXI_NAVI_TEST; NP_NAVI_TEST]
  | MapF1 | MapF2 => [NU_NAVI_TEST; NP_NAVI_TEST]
  end.

(** The number of arguments of a kernel. *)
Definition n_in (k : kernel_id) : Z := Z.of_nat (length (declared_inputs k)).

Definition load_vec (p : ptr) (n : Z) : M (list casadi_real) := λ m,
  match read_vec m p n with
  | Some l => Some (l, m)
  | None => None
  end.

Fixpoint load_args (arg : list ptr) (dims : list Z) {struct dims}
  : M (list (list casadi_real)) :=
  match dims, arg with
  | [], _ => mret []
  | n :: dims', a :: arg' =>
      l ← load_vec a n; ls ← load_args arg' dims'; mret (l :: ls)
  | _ :: _, [] => λ _, None
  end.

(** [l] written over the cells of [c] from index [o] on. *)
Definition splice {A} (o : nat) (l c : list A) : list A :=
  take o c ++ l ++ drop (o + length l) c.

Definition write_vec (p : ptr) (l : list casadi_real) (m : mem) : mem :=
  match p with
  | Ptr b o => Mem (alter (splice (Z.to_nat o) l) b (reals m)) (ints m) (ptrs m)
  | NULL => m
  end.

Definition store_vec (p : ptr) (l : list casadi_real) : M unit := λ m,
  match read_vec m p (Z.of_nat (length l)) with
  | Some _ => Some (tt, write_vec p l m)
  | None => None
  end.

(** A scratch arena: the whole array behind its base pointer, nothing
    behind a null pointer.  A kernel overwrites its arena in place. *)
Definition arena {A} (g : gmap block (list A)) (p : ptr) : option (list A) :=
  match p with
  | NULL => Some []
  | Ptr b o => if bool_decide (o = 0) then g !! b else None
  end.

Definition overwrite {A} (new old : list A) : list A :=
  take (length old) (new ++ drop (length new) old).

Definition put_arena {A} (g : gmap block (list A)) (p : ptr) (new : list A)
  : gmap block (list A) :=
  match p with
  | Ptr b _ => alter (overwrite new) b g
  | NULL => g
  end.

Definition load_arena_int (p : ptr) : M (list casadi_int) := λ m,
  match arena (ints m) p with
  | Some c => Some (c, m)
  | None => None
  end.

Definition load_arena_real (p : ptr) : M (list casadi_real) := λ m,
  match arena (reals m) p with
  | Some c => Some (c, m)
  | None => None
  end.

Definition store_arena_int (p : ptr) (new : list casadi_int) : M unit := λ m,
  match arena (ints m) p with
  | Some _ => Some (tt, Mem (reals m) (put_arena (ints m) p new) (ptrs m))
  | None => None
  end.

Definition store_arena_real (p : ptr) (new : list casadi_real) : M unit := λ m,
  match arena (reals m) p with
  | Some _ => Some (tt, Mem (put_arena (reals m) p new) (ints m) (ptrs m))
  | None => None
  end.

(** Modelled from the spec: the work of a kernel once its arguments [ins]
    and its output pointer [r0] are read.  It overwrites its two scratch
    arenas, writes its output through [r0] and returns its status. *)
Definition kernel_body (ev : kernel_model) (ins : list (list casadi_real))
    (r0 iw w : ptr) : M Z :=
  siw ← load_arena_int iw;
  sw ← load_arena_real w;
  store_arena_int iw (fst (k_scratch ev ins siw sw));;
  store_arena_real w (snd (k_scratch ev ins siw sw));;
  store_vec r0 (snd (k_value ev ins));;
  mret (fst (k_value ev ins)).

(** Modelled from the spec: a kernel behind the call signature
    [(arg, res, iw, w, mem)].  It reads the argument vectors through the
    argument view at their declared lengths and the output pointer from
    entry 0 of the result slot; the auxiliary-memory handle is unused. *)
Definition run_kernel (dims : list Z) (ev : kernel_model) : casadi_fn :=
  λ arg res iw w _,
    ins ← load_args arg dims;
    r0 ← load_ptr (res +ₚ 0);
    kernel_body ev ins r0 iw w.

(** The scratch arenas after a kernel ran on [ins]. *)
Definition scratch_step (ev : kernel_model) (ins : list (list casadi_real))
    (iw w : ptr) (m : mem) : mem :=
  match arena (ints m) iw, arena (reals m) w with
  | Some siw, Some sw =>
      Mem (put_arena (reals m) w (snd (k_scratch ev ins siw sw)))
          (put_arena (ints m) iw (fst (k_scratch ev ins siw sw)))
          (ptrs m)
  | _, _ => m
  end.

Section Modelled.
Context `{casadi_memory_h}.
Variable km : kernel_id → kernel_model.

(** The dispatch functions linked against modelled kernels. *)
Definition modelled_kernels : casadi_kernels := {|
  open_phi_navi_test := run_kernel (declared_inputs Cost) (km Cost);
  open_grad_phi_navi_test := run_kernel (declared_inputs Grad) (km Grad);
  open_mapping_f1_navi_test := run_kernel (declared_inputs MapF1) (km MapF1);
  open_mapping_f2_navi_test := run_kernel (declared_inputs MapF2) (km MapF2)
|}.

Definition dispatch_modelled (k : kernel_id) : list ptr → list ptr → M Z :=
  @dispatch _ modelled_kernels k.

(** The memory when the call has returned. *)
Definition after_call (k : kernel_id) (ins : list (list casadi_real))
    (r : ptr) (m : mem) : mem :=
  write_vec r (snd (k_value (km k) ins))
    (scratch_step (km k) ins (allocated_i_workspace k)
       (allocated_r_workspace k) (at_invoke k ins r m)).
End Modelled.

(** ** The per-call state machine of the spec *)

Inductive phase :=
  Idle | Packing | ViewBinding | ResultBinding | Invoking | Done.

Record call_state := CallState {
  cs_phase : phase;
  cs_view : list ptr;
  cs_status : Z;
  cs_mem : mem
}.

Section Machine.
Context `{casadi_memory_h} `{casadi_kernels}.

(** One transition, following the five steps of the spec:
    copy the inputs, construct the argument view, bind the result slot,
    invoke the kernel, return its status. *)
Definition step (k : kernel_id) (arg res : list ptr) (s : call_state)
  : option call_state :=
  match cs_phase s with
  | Idle =>
      match pack k arg (cs_mem s) with
      | Some (_, m') => Some (CallState Packing (cs_view s) (cs_status s) m')
      | None => None
      end
  | Packing =>
      Some (CallState ViewBinding (argument_view k) (cs_status s) (cs_mem s))
  | ViewBinding =>
      match (r ← deref res 0; store_ptr (result_space k +ₚ 0) r) (cs_mem s) with
      | Some (_, m') => Some (CallState ResultBinding (cs_view s) (cs_status s) m')
      | None => None
      end
  | ResultBinding =>
      match kernel_of k (cs_view s) (result_space k)
              (allocated_i_workspace k) (allocated_r_workspace k) NULL
              (cs_mem s) with
      | Some (c, m') => Some (CallState Invoking (cs_view s) c m')
      | None => None
      end
  | Invoking =>
      Some (CallState Done (cs_view s) (cs_status s) (cs_mem s))
  | Done => None
  end.

Fixpoint steps (n : nat) (k : kernel_id) (arg res : list ptr)
    (s : call_state) : option call_state :=
  match n with
  | O => Some s
  | S n' =>
      match step k arg res s with
      | Some s' => steps n' k arg res s'
      | None => None
      end
  end.

(** A call: the five transitions from [Idle]; its result is the status and
    the memory in [Done]. *)
Definition run_call (k : kernel_id) (arg res : list ptr) : M Z := λ m,
  match steps 5 k arg res (CallState Idle [] 0 m) with
  | Some s =>
      match cs_phase s with
      | Done => Some (cs_status s, cs_mem s)
      | _ => None
      end
  | None => None
  end.
End Machine.

(** ** Regions of memory *)

(** The [n] cells from [p] on and the [k] cells from [q] on do not overlap. *)
Definition regions_disjoint (p : ptr) (n : Z) (q : ptr) (k : Z) : bool :=
  match p, q with
  | Ptr b o, Ptr b' o' =>
      negb (bool_decide (b = b'))
      || bool_decide (o + n ≤ o') || bool_decide (o' + k ≤ o)
  | _, _ => true
  end.

Definition apart (arg : list ptr) (j : nat) (d : Z) (r : ptr) (n : Z) : bool :=
  match arg !! j with
  | Some a => regions_disjoint a d r n
  | None => true
  end.

(** None of the input vectors of a call of [k] overlaps the [n] cells from
    [r] on. *)
Definition inputs_apart (k : kernel_id) (arg : list ptr) (r : ptr) (n : Z) : bool :=
  match k with
  | Cost | Grad =>
      apart arg 0 NU_NAVI_TEST r n && apart arg 1 NXI_NAVI_TEST r n
      && apart arg 2 NP_NAVI_TEST r n
  | MapF1 | MapF2 =>
      apart arg 0 NU_NAVI_TEST r n && apart arg 1 NP_NAVI_TEST r n
  end.

(** The [xi] region of the packed workspace overwritten with [q]. *)
Definition poison_xi (q : list casadi_real) (m : mem) : mem :=
  with_uxip (take (Z.to_nat NU_NAVI_TEST) (uxip_contents m) ++ q
             ++ drop (Z.to_nat (NU_NAVI_TEST + NXI_NAVI_TEST)) (uxip_contents m)) m.

Section Corrupt.
Context `{casadi_memory_h}.

(** The scratch arenas of kernel [k'] overwritten with [ji] and [jr]. *)
Definition corrupt_scratch (k' : kernel_id) (ji : list casadi_int)
    (jr : list casadi_real) (m : mem) : mem :=
  Mem (put_arena (reals m) (allocated_r_workspace k') jr)
      (put_arena (ints m) (allocated_i_workspace k') ji)
      (ptrs m).
End Corrupt.

(** ** A concrete configuration *)

(** Sizes as [casadi_memory.h] could declare them, and a caller with its
    input vectors in buffers 0, 1 and 2 and two output buffers 3 and 4. *)
Definition example_sizes : casadi_memory_h := {|
  COST_SZ_ARG_NAVI_TEST := 3; COST_SZ_IW_NAVI_TEST := 0;
  COST_SZ_W_NAVI_TEST := 4; COST_SZ_RES_NAVI_TEST := 1;
  GRAD_SZ_ARG_NAVI_TEST := 3; GRAD_SZ_IW_NAVI_TEST := 2;
  GRAD_SZ_W_NAVI_TEST := 4; GRAD_SZ_RES_NAVI_TEST := 1;
  F1_SZ_ARG_NAVI_TEST := 2; F1_SZ_IW_NAVI_TEST := 0;
  F1_SZ_W_NAVI_TEST := 3; F1_SZ_RES_NAVI_TEST := 1;
  F2_SZ_ARG_NAVI_TEST := 2; F2_SZ_IW_NAVI_TEST := 0;
  F2_SZ_W_NAVI_TEST := 0; F2_SZ_RES_NAVI_TEST := 1
|}.

Definition example_u : list casadi_real :=
  [0; -1.5; 0x1.fffffffffffffp+1023; 0x0.0000000000001p-1022]%float
  ++ replicate 36 0.25%float.

Definition example_xi : list casadi_real :=
  [-0; 3; -0x1p-22]%float ++ replicate 38 1%float.

Definition example_p : list casadi_real :=
  [2; -0x1p+996]%float ++ replicate 2671 0.5%float.

Definition example_heap : gmap block (list casadi_real) :=
  <[Caller 0 := example_u]>
    (<[Caller 1 := example_xi]>
       (<[Caller 2 := example_p]>
          (<[Caller 3 := replicate 40 0%float]>
             (<[Caller 4 := replicate 40 0%float]> ∅)))).

Definition example_mem : mem := @static_init example_sizes example_heap.

Definition example_arg : list ptr :=
  [Ptr (Caller 0) 0; Ptr (Caller 1) 0; Ptr (Caller 2) 0].

Definition example_arg_up : list ptr :=
  [Ptr (Caller 0) 0; Ptr (Caller 2) 0].

Definition example_ins_full : list (list casadi_real) :=
  [example_u; example_xi; example_p].

(** A kernel that computes nothing and returns the status [c]. *)
Definition status_kernel (c : Z) : casadi_fn := λ _ _ _ _ _, mret c.

Definition status_kernels (c1 c2 c3 c4 : Z) : casadi_kernels := {|
  open_phi_navi_test := status_kernel c1;
  open_grad_phi_navi_test := status_kernel c2;
  open_mapping_f1_navi_test := status_kernel c3;
  open_mapping_f2_navi_test := status_kernel c4
|}.

(** Kernel models for the concrete configuration: a sum for the cost,
    a scaling of [u] for the gradient, [u] itself for [F1], and the first
    [N2] parameters with a non-zero status for [F2]; each leaves a trace of
    its call in its scratch arenas. *)
Definition example_scratch (ins : list (list casadi_real))
    (iw : list casadi_int) (w : list casadi_real)
  : list casadi_int * list casadi_real :=
  (Z.succ <$> iw, take 2 (default [] (head ins))).

Definition example_kernels (k : kernel_id) : kernel_model :=
  match k with
  | Cost =>
      KernelModel (λ ins, (0, [foldr PrimFloat.add 0%float (concat ins)]))
        example_scratch
  | Grad =>
      KernelModel
        (λ ins, (0, (λ x, PrimFloat.mul 2%float x) <$> default [] (head ins)))
        example_scratch
  | MapF1 =>
      KernelModel (λ ins, (0, default [] (head ins))) example_scratch
  | MapF2 =>
      KernelModel
        (λ ins, (3, take (Z.to_nat N2_NAVI_TEST) (default [] (last ins))))
        example_scratch
  end.

Definition example_poison : list casadi_real := replicate 41 infinity.

(** ** Vocabulary of the proofs *)

(** A computation that neither reads nor writes the pointer store. *)
Definition ptrs_blind {A} (c : M A) : Prop :=
  ∀ g m, c (set_ptrs g m) = (λ xm, (xm.1, set_ptrs g xm.2)) <$> c m.

(** The blocks of the file's statics. *)
Definition static_block (b : block) : Prop :=
  match b with Caller _ => False | _ => True end.

(** Two memories whose statics have the same sizes. *)
Definition same_shape (m m' : mem) : Prop :=
  (∀ b, static_block b → length <$> reals m' !! b = length <$> reals m !! b)
  ∧ (∀ b, length <$> ints m' !! b = length <$> ints m !! b)
  ∧ (∀ b, length <$> ptrs m' !! b = length <$> ptrs m !! b).

(** Arithmetic over the dimensions of the problem. *)
Ltac dims :=
  unfold sizeof_uxip_space, NU_NAVI_TEST, NXI_NAVI_TEST, NP_NAVI_TEST in *; lia.

(** ** Frames *)

(** [m'] differs from [m] at most in the contents of the packed workspace,
    whose size is the same. *)
Definition only_uxip (m m' : mem) : Prop :=
  ints m' = ints m
  ∧ ptrs m' = ptrs m
  ∧ (∀ b, b ≠ Uxip → reals m' !! b = reals m !! b)
  ∧ length <$> reals m' !! Uxip = length <$> reals m !! Uxip.

(** A configuration whose cost kernel declares no result. *)
Definition example_sizes_no_result : casadi_memory_h := {|
  COST_SZ_ARG_NAVI_TEST := 3; COST_SZ_IW_NAVI_TEST := 0;
  COST_SZ_W_NAVI_TEST := 4; COST_SZ_RES_NAVI_TEST := 0;
  GRAD_SZ_ARG_NAVI_TEST := 3; GRAD_SZ_IW_NAVI_TEST := 2;
  GRAD_SZ_W_NAVI_TEST := 4; GRAD_SZ_RES_NAVI_TEST := 1;
  F1_SZ_ARG_NAVI_TEST := 2; F1_SZ_IW_NAVI_TEST := 0;
  F1_SZ_W_NAVI_TEST := 3; F1_SZ_RES_NAVI_TEST := 1;
  F2_SZ_ARG_NAVI_TEST := 2; F2_SZ_IW_NAVI_TEST := 0;
  F2_SZ_W_NAVI_TEST := 0; F2_SZ_RES_NAVI_TEST := 1
|}.

(** ** The effects of a call, in order *)

(** What a dispatch function does to the memory and to the outside, as it
    happens: the initialisation of its local array, each store through a
    pointer, and the call of its kernel. *)
Inductive event :=
  | EvInit (a : list ptr)
  | EvWriteReal (p : ptr)
  | EvWritePtr (p : ptr) (v : ptr)
  | EvCall (k : kernel_id) (arg : list ptr) (res iw w mem : ptr).

(** Computations that also list their effects. *)
Definition T (A : Type) : Type := mem → option (A * mem * list event).

#[global] Instance T_ret : MRet T := λ A x m, Some (x, m, []).

#[global] Instance T_bind : MBind T := λ A B f c m,
  match c m with
  | Some (x, m1, t1) =>
      match f x m1 with
      | Some (y, m2, t2) => Some (y, m2, t1 ++ t2)
      | None => None
      end
  | None => None
  end.

Definition lift {A} (c : M A) : T A := λ m,
  match c m with
  | Some (x, m') => Some (x, m', [])
  | None => None
  end.

Definition emit (e : event) : T unit := λ m, Some (tt, m, [e]).

(** The computation without the list of its effects. *)
Definition erase {A} (c : T A) : M A := λ m,
  match c m with
  | Some (x, m', _) => Some (x, m')
  | None => None
  end.

Definition store_real_traced (p : ptr) (x : casadi_real) : T unit :=
  lift (store_real p x) ≫= λ _, emit (EvWriteReal p).

Definition store_ptr_traced (p v : ptr) : T unit :=
  lift (store_ptr p v) ≫= λ _, emit (EvWritePtr p v).

Definition array_init_traced (size : Z) (init : list ptr) : T (list ptr) :=
  emit (EvInit (array_init size init)) ≫= λ _, mret (array_init size init).

Definition call_traced (k : kernel_id) (f : casadi_fn)
    (arg : list ptr) (res iw w h : ptr) : T Z :=
  emit (EvCall k arg res iw w h) ≫= λ _, lift (f arg res iw w h).

Fixpoint for_from_traced (n : nat) (i : Z) (body : Z → T unit) : T unit :=
  match n with
  | O => mret tt
  | S n' => body i ≫= λ _, for_from_traced n' (i + 1) body
  end.

Definition for_lt_traced (N : Z) (body : Z → T unit) : T unit :=
  for_from_traced (Z.to_nat N) 0 body.

(** The two copy routines and the four dispatch functions again, statement
    by statement as in the source, with their effects listed. *)
Definition copy_args_into_uxip_space_traced (arg : list ptr) : T unit :=
  for_lt_traced NU_NAVI_TEST (λ i,
    a ← lift (deref arg 0); x ← lift (load_real (a +ₚ i));
    store_real_traced (uxip_space +ₚ i) x);;
  for_lt_traced NXI_NAVI_TEST (λ i,
    a ← lift (deref arg 1); x ← lift (load_real (a +ₚ i));
    store_real_traced (uxip_space +ₚ (NU_NAVI_TEST + i)) x);;
  for_lt_traced NP_NAVI_TEST (λ i,
    a ← lift (deref arg 2); x ← lift (load_real (a +ₚ i));
    store_real_traced (uxip_space +ₚ (NU_NAVI_TEST + NXI_NAVI_TEST + i)) x).

Definition copy_args_into_up_space_traced (arg : list ptr) : T unit :=
  for_lt_traced NU_NAVI_TEST (λ i,
    a ← lift (deref arg 0); x ← lift (load_real (a +ₚ i));
    store_real_traced (uxip_space +ₚ i) x);;
  for_lt_traced NP_NAVI_TEST (λ i,
    a ← lift (deref arg 1); x ← lift (load_real (a +ₚ i));
    store_real_traced (uxip_space +ₚ (NU_NAVI_TEST + NXI_NAVI_TEST + i)) x).

Section Traced.
Context `{casadi_memory_h} `{casadi_kernels}.

Definition cost_function_navi_test_traced (arg res : list ptr) : T Z :=
  args__ ← array_init_traced COST_SZ_ARG_NAVI_TEST
             [uxip_space;
              uxip_space +ₚ NU_NAVI_TEST;
              uxip_space +ₚ NU_NAVI_TEST +ₚ NXI_NAVI_TEST];
  copy_args_into_uxip_space_traced arg;;
  r ← lift (deref res 0); store_ptr_traced (result_space_cost +ₚ 0) r;;
  call_traced Cost open_phi_navi_test args__ result_space_cost
    allocated_i_workspace_cost allocated_r_workspace_cost NULL.

Definition grad_cost_function_navi_test_traced (arg res : list ptr) : T Z :=
  args__ ← array_init_traced GRAD_SZ_ARG_NAVI_TEST
             [uxip_space;
              uxip_space +ₚ NU_NAVI_TEST;
              uxip_space +ₚ NU_NAVI_TEST +ₚ NXI_NAVI_TEST];
  copy_args_into_uxip_space_traced arg;;
  r ← lift (deref res 0); store_ptr_traced (result_space_grad +ₚ 0) r;;
  call_traced Grad open_grad_phi_navi_test args__ result_space_grad
    allocated_i_workspace_grad allocated_r_workspace_grad NULL.

Definition mapping_f1_function_navi_test_traced (arg res : list ptr) : T Z :=
  args__ ← array_init_traced F1_SZ_ARG_NAVI_TEST
             [uxip_space;
              uxip_space +ₚ NU_NAVI_TEST +ₚ NXI_NAVI_TEST];
  copy_args_into_up_space_traced arg;;
  r ← lift (deref res 0); store_ptr_traced (result_space_f1 +ₚ 0) r;;
  call_traced MapF1 open_mapping_f1_navi_test args__ result_space_f1
    allocated_i_workspace_f1 allocated_r_workspace_f1 NULL.

Definition mapping_f2_function_navi_test_traced (arg res : list ptr) : T Z :=
  args__ ← array_init_traced F2_SZ_ARG_NAVI_TEST
             [uxip_space;
              uxip_space +ₚ NU_NAVI_TEST +ₚ NXI_NAVI_TEST];
  copy_args_into_up_space_traced arg;;
  r ← lift (deref res 0); store_ptr_traced (result_space_f2 +ₚ 0) r;;
  call_traced MapF2 open_mapping_f2_navi_test args__ result_space_f2
    allocated_i_workspace_f2 allocated_r_workspace_f2 NULL.

Definition dispatch_traced (k : kernel_id) : list ptr → list ptr → T Z :=
  match k with
  | Cost => cost_function_navi_test_traced
  | Grad => grad_cost_function_navi_test_traced
  | MapF1 => mapping_f1_function_navi_test_traced
  | MapF2 => mapping_f2_function_navi_test_traced
  end.
End Traced.

(** The stores of one copy loop: the [n] cells of the packed workspace from
    offset [off] on, in increasing order. *)
Definition region_writes (off n : Z) : list event :=
  (λ j, EvWriteReal (workspace_at (off + j))) <$> seqZ 0 n.

(** The stores of the copy routine of each kernel. *)
Definition copy_writes (k : kernel_id) : list event :=
  match k with
  | Cost | Grad =>
      region_writes 0 NU_NAVI_TEST
      ++ region_writes NU_NAVI_TEST NXI_NAVI_TEST
      ++ region_writes (NU_NAVI_TEST + NXI_NAVI_TEST) NP_NAVI_TEST
  | MapF1 | MapF2 =>
      region_writes 0 NU_NAVI_TEST
      ++ region_writes (NU_NAVI_TEST + NXI_NAVI_TEST) NP_NAVI_TEST
  end.

Section Orders.
Context `{casadi_memory_h}.

(** The effects of a call of [k] that binds its result slot to [r], in the
    order of the source: the view, the copy, the binding, the call. *)
Definition source_order (k : kernel_id) (r : ptr) : list event :=
  EvInit (argument_view k) :: copy_writes k
  ++ [EvWritePtr (result_space k +ₚ 0) r;
      EvCall k (argument_view k) (result_space k)
        (allocated_i_workspace k) (allocated_r_workspace k) NULL].

(** The same effects with the copy before the view. *)
Definition copy_first_order (k : kernel_id) (r : ptr) : list event :=
  copy_writes k
  ++ [EvInit (argument_view k);
      EvWritePtr (result_space k +ₚ 0) r;
      EvCall k (argument_view k) (result_space k)
        (allocated_i_workspace k) (allocated_r_workspace k) NULL].
End Orders.

(** * Properties *)

(** ** The monad and the loop *)

Lemma bind_Some {A B} (c : M A) (f : A → M B) m x m' :
  c m = Some (x, m') → (c ≫= f) m = f x m'.
Proof. intros E. unfold mbind, M_bind. by rewrite E. Qed.

Lemma bind_None {A B} (c : M A) (f : A → M B) m :
  c m = None → (c ≫= f) m = None.
Proof. intros E. unfold mbind, M_bind. by rewrite E. Qed.

Lemma for_from_ext n : ∀ i (f g : Z → M unit) m,
  (∀ j m', f j m' = g j m') → for_from n i f m = for_from n i g m.
Proof.
  induction n as [|n IH]; intros i f g m E; [done|].
  simpl. unfold mbind, M_bind. rewrite E.
  destruct (g i m) as [[[] m1]|]; [|done]. by apply IH.
Qed.

(** ** Copying one vector into the packed workspace *)

Lemma slice_length {A} (l : list A) lo n :
  0 ≤ lo → 0 ≤ n → lo + n ≤ Z.of_nat (length l) →
  length (slice l lo n) = Z.to_nat n.
Proof.
  intros. unfold slice. rewrite length_take, length_drop. lia.
Qed.

Lemma slice_lookup {A} (l : list A) lo n (j : nat) :
  0 ≤ lo → (j < Z.to_nat n)%nat →
  slice l lo n !! j = l !! (Z.to_nat lo + j)%nat.
Proof.
  intros. unfold slice. rewrite lookup_take_lt by done. by rewrite lookup_drop.
Qed.

Lemma split_at_slice {A} (l : list A) lo n :
  0 ≤ lo → 0 ≤ n →
  l = take (Z.to_nat lo) l ++ slice l lo n ++ drop (Z.to_nat (lo + n)) l.
Proof.
  intros. unfold slice.
  rewrite <- (take_drop (Z.to_nat lo) l) at 1. f_equal.
  rewrite <- (take_drop (Z.to_nat n) (drop (Z.to_nat lo) l)) at 1. f_equal.
  rewrite drop_drop. f_equal. lia.
Qed.

Lemma for_from_copy (arg : list ptr) (k : nat) b so c (pre post : list casadi_real) :
  arg !! k = Some (Ptr b so) → b ≠ Uxip → 0 ≤ so →
  ∀ (l2 l1 junk : list casadi_real) m,
    reals m !! b = Some c →
    (∀ j, (j < length l2)%nat →
          c !! (Z.to_nat so + length l1 + j)%nat = l2 !! j) →
    length junk = length l2 →
    reals m !! Uxip = Some (pre ++ l1 ++ junk ++ post) →
    for_from (length l2) (Z.of_nat (length l1))
      (λ i, a ← deref arg k; x ← load_real (a +ₚ i);
            store_real (uxip_space +ₚ (Z.of_nat (length pre) + i)) x) m
    = Some (tt, with_uxip (pre ++ (l1 ++ l2) ++ post) m).
Proof.
  intros Harg Hb Hso l2.
  induction l2 as [|x l2 IH]; intros l1 junk m Hc Hsrc Hlen Hw.
  - destruct junk; [|done]. simpl. unfold mret, M_ret, with_uxip, set_real.
    rewrite app_nil_r. simpl in Hw. rewrite insert_id by done. by destruct m.
  - destruct junk as [|y junk]; [done|]. simpl in Hlen.
    cbn [length for_from].
    assert (Hx : c !! Z.to_nat (so + Z.of_nat (length l1)) = Some x).
    { specialize (Hsrc 0%nat). simpl in Hsrc.
      rewrite <- Hsrc by lia. f_equal. lia. }
    set (m1 := with_uxip (pre ++ (l1 ++ [x]) ++ junk ++ post) m).
    assert (Hstep :
      (a ← deref arg k; x0 ← load_real (a +ₚ Z.of_nat (length l1));
       store_real (uxip_space +ₚ (Z.of_nat (length pre) + Z.of_nat (length l1))) x0) m
      = Some (tt, m1)).
    { unfold mbind, M_bind, deref. rewrite Harg. simpl.
      rewrite bool_decide_eq_true_2 by lia. rewrite Hc, Hx.
      simpl. rewrite Hw.
      rewrite bool_decide_eq_true_2
        by (repeat (rewrite length_app; simpl); lia).
      unfold m1, with_uxip, set_real. do 3 f_equal.
      replace (Z.to_nat (0 + (Z.of_nat (length pre) + Z.of_nat (length l1))))
        with (length pre + (length l1 + 0))%nat by lia.
      rewrite insert_app_r, insert_app_r. simpl.
      by rewrite <- (assoc_L (++) l1 [x]). }
    rewrite (bind_Some _ _ _ _ _ Hstep).
    replace (Z.of_nat (length l1) + 1) with (Z.of_nat (length (l1 ++ [x])))
      by (rewrite length_app; simpl; lia).
    rewrite (IH (l1 ++ [x]) junk m1).
    + unfold m1, with_uxip, set_real. simpl. rewrite insert_insert_eq.
      by rewrite <- (assoc_L (++) l1 [x]).
    + unfold m1, with_uxip, set_real. simpl. by rewrite lookup_insert_ne.
    + intros j Hj. rewrite length_app. simpl.
      specialize (Hsrc (S j)). simpl in Hsrc. rewrite <- Hsrc by lia.
      f_equal. lia.
    + lia.
    + unfold m1, with_uxip, set_real. simpl. by rewrite lookup_insert_eq.
Qed.

Lemma read_vec_Some m b o n l :
  read_vec m (Ptr b o) n = Some l →
  ∃ c, reals m !! b = Some c ∧ 0 ≤ o ∧ 0 ≤ n ∧
       o + n ≤ Z.of_nat (length c) ∧ l = slice c o n.
Proof.
  unfold read_vec. destruct (reals m !! b) as [c|]; [|done].
  case_bool_decide as Hb; [|done]. intros [= <-]. exists c.
  destruct Hb as (? & ? & ?). by repeat split.
Qed.

Lemma read_vec_length m p n l :
  read_vec m p n = Some l → Z.of_nat (length l) = n.
Proof.
  destruct p as [|b o]; [done|]. intros Hr.
  apply read_vec_Some in Hr as (c & _ & ? & ? & ? & ->).
  rewrite slice_length by done. lia.
Qed.

Lemma input_vec_Some m arg k n l :
  input_vec m arg k n = Some l →
  ∃ i o, arg !! k = Some (Ptr (Caller i) o) ∧
         read_vec m (Ptr (Caller i) o) n = Some l.
Proof.
  unfold input_vec. destruct (arg !! k) as [[|[i| | | |] o]|]; try done.
  simpl. eauto.
Qed.

Lemma input_vec_length m arg k n l :
  input_vec m arg k n = Some l → Z.of_nat (length l) = n.
Proof.
  intros (i & o & _ & Hr)%input_vec_Some. by eapply read_vec_length.
Qed.

(** Writing the packed workspace does not change what a caller's pointer
    holds. *)
Lemma input_vec_with_uxip w m arg k n :
  input_vec (with_uxip w m) arg k n = input_vec m arg k n.
Proof.
  unfold input_vec. destruct (arg !! k) as [[|[i| | | |] o]|]; try done.
  simpl. unfold set_real. simpl. by rewrite lookup_insert_ne.
Qed.

Lemma with_uxip_twice w1 w2 m :
  with_uxip w2 (with_uxip w1 m) = with_uxip w2 m.
Proof. unfold with_uxip, set_real. simpl. by rewrite insert_insert_eq. Qed.

(** One copy loop of the source: [uxip_space[off + i] = arg[k][i]] for
    [i < n] overwrites exactly the slice [[off, off + n)]. *)
Lemma for_lt_copy (arg : list ptr) (k : nat) (n off : Z) m l w
      (body : Z → M unit) :
  (∀ i m', body i m' =
     (a ← deref arg k; x ← load_real (a +ₚ i);
      store_real (uxip_space +ₚ (off + i)) x) m') →
  input_vec m arg k n = Some l →
  reals m !! Uxip = Some w →
  0 ≤ off → off + n ≤ Z.of_nat (length w) →
  for_lt n body m
  = Some (tt, with_uxip (take (Z.to_nat off) w ++ l ++ drop (Z.to_nat (off + n)) w) m).
Proof.
  intros Hbody Hin Hw Hoff Hfit.
  pose proof (input_vec_length _ _ _ _ _ Hin) as Hlen.
  apply input_vec_Some in Hin as (i0 & so & Harg & Hr).
  apply read_vec_Some in Hr as (c & Hc & Hso & Hn & Hfit' & Hl).
  unfold for_lt.
  rewrite (for_from_ext _ _ body
    (λ i, a ← deref arg k; x ← load_real (a +ₚ i);
          store_real (uxip_space +ₚ (Z.of_nat (length (take (Z.to_nat off) w)) + i)) x)).
  2:{ intros j m'. rewrite Hbody.
      replace (Z.of_nat (length (take (Z.to_nat off) w))) with off; [done|].
      rewrite length_take. lia. }
  replace (Z.to_nat n) with (length l) by lia.
  change 0 with (Z.of_nat (length (@nil casadi_real))).
  rewrite (for_from_copy arg k (Caller i0) so c (take (Z.to_nat off) w)
             (drop (Z.to_nat (off + n)) w) Harg ltac:(done) Hso
             l [] (slice w off n) m); try done.
  - intros j Hj. subst l. simpl. rewrite slice_lookup by lia. f_equal. lia.
  - rewrite slice_length by lia. lia.
  - rewrite Hw. f_equal. simpl. by apply split_at_slice.
Qed.

(** ** The two copy routines *)

Lemma reals_with_uxip w m : reals (with_uxip w m) !! Uxip = Some w.
Proof. unfold with_uxip, set_real. simpl. by rewrite lookup_insert_eq. Qed.

Lemma take_splice {A} (a b c : list A) n :
  length a = n → take n (a ++ b) ++ c = a ++ c.
Proof. intros <-. by rewrite take_app_length. Qed.

Lemma drop_splice {A} (a : list A) w n k :
  length a = n → (n ≤ k)%nat → drop k (a ++ drop n w) = drop k w.
Proof.
  intros <- Hk. rewrite drop_app_ge by done. rewrite drop_drop. f_equal. lia.
Qed.

Lemma copy_args_into_uxip_space_run m arg u xi p w :
  input_vec m arg 0 NU_NAVI_TEST = Some u →
  input_vec m arg 1 NXI_NAVI_TEST = Some xi →
  input_vec m arg 2 NP_NAVI_TEST = Some p →
  reals m !! Uxip = Some w →
  Z.of_nat (length w) = sizeof_uxip_space →
  copy_args_into_uxip_space arg m = Some (tt, with_uxip (u ++ xi ++ p) m).
Proof.
  intros Hu Hxi Hp Hw Hlen.
  pose proof (input_vec_length _ _ _ _ _ Hu) as Lu.
  pose proof (input_vec_length _ _ _ _ _ Hxi) as Lxi.
  pose proof (input_vec_length _ _ _ _ _ Hp) as Lp.
  unfold sizeof_uxip_space in Hlen.
  unfold copy_args_into_uxip_space.
  erewrite bind_Some; last first.
  { eapply (for_lt_copy arg 0 NU_NAVI_TEST 0); [done|done|done|lia|].
    unfold NU_NAVI_TEST, NXI_NAVI_TEST, NP_NAVI_TEST in *. lia. }
  set (w1 := take (Z.to_nat 0) w ++ u ++ drop (Z.to_nat (0 + NU_NAVI_TEST)) w).
  assert (Hw1 : w1 = u ++ drop (Z.to_nat NU_NAVI_TEST) w) by done.
  assert (L1 : length w1 = length w).
  { rewrite Hw1, length_app, length_drop.
    unfold NU_NAVI_TEST, NXI_NAVI_TEST, NP_NAVI_TEST in *. lia. }
  erewrite bind_Some; last first.
  { eapply (for_lt_copy arg 1 NXI_NAVI_TEST NU_NAVI_TEST); [done| | | |].
    - by rewrite input_vec_with_uxip.
    - apply reals_with_uxip.
    - done.
    - rewrite L1. unfold NU_NAVI_TEST, NXI_NAVI_TEST, NP_NAVI_TEST in *. lia. }
  rewrite with_uxip_twice.
  set (w2 := take (Z.to_nat NU_NAVI_TEST) w1 ++ xi
             ++ drop (Z.to_nat (NU_NAVI_TEST + NXI_NAVI_TEST)) w1).
  assert (Hw2 : w2 = u ++ xi ++ drop (Z.to_nat (NU_NAVI_TEST + NXI_NAVI_TEST)) w).
  { unfold w2. rewrite Hw1. rewrite take_splice by lia.
    rewrite drop_splice; [done|lia|].
    unfold NU_NAVI_TEST, NXI_NAVI_TEST. lia. }
  assert (L2 : length w2 = length w).
  { rewrite Hw2, !length_app, length_drop.
    unfold NU_NAVI_TEST, NXI_NAVI_TEST, NP_NAVI_TEST in *. lia. }
  erewrite (for_lt_copy arg 2 NP_NAVI_TEST (NU_NAVI_TEST + NXI_NAVI_TEST));
    [| done | by rewrite input_vec_with_uxip | apply reals_with_uxip
     | done | rewrite L2; lia].
  rewrite with_uxip_twice. do 3 f_equal.
  rewrite Hw2.
  rewrite (assoc_L (++) u xi). rewrite take_splice by (rewrite length_app; lia).
  rewrite <- (assoc_L (++) u xi). do 2 f_equal.
  rewrite drop_ge, app_nil_r; [done|].
  rewrite !length_app, length_drop. lia.
Qed.

Lemma copy_args_into_up_space_run m arg u p w :
  input_vec m arg 0 NU_NAVI_TEST = Some u →
  input_vec m arg 1 NP_NAVI_TEST = Some p →
  reals m !! Uxip = Some w →
  Z.of_nat (length w) = sizeof_uxip_space →
  copy_args_into_up_space arg m
  = Some (tt, with_uxip (u ++ slice w NU_NAVI_TEST NXI_NAVI_TEST ++ p) m).
Proof.
  intros Hu Hp Hw Hlen.
  pose proof (input_vec_length _ _ _ _ _ Hu) as Lu.
  pose proof (input_vec_length _ _ _ _ _ Hp) as Lp.
  unfold sizeof_uxip_space in Hlen.
  unfold copy_args_into_up_space.
  erewrite bind_Some; last first.
  { eapply (for_lt_copy arg 0 NU_NAVI_TEST 0); [done|done|done|lia|].
    unfold NU_NAVI_TEST, NXI_NAVI_TEST, NP_NAVI_TEST in *. lia. }
  set (w1 := take (Z.to_nat 0) w ++ u ++ drop (Z.to_nat (0 + NU_NAVI_TEST)) w).
  assert (Hw1 : w1 = u ++ drop (Z.to_nat NU_NAVI_TEST) w) by done.
  assert (L1 : length w1 = length w).
  { rewrite Hw1, length_app, length_drop.
    unfold NU_NAVI_TEST, NXI_NAVI_TEST, NP_NAVI_TEST in *. lia. }
  erewrite (for_lt_copy arg 1 NP_NAVI_TEST (NU_NAVI_TEST + NXI_NAVI_TEST));
    [| done | by rewrite input_vec_with_uxip | apply reals_with_uxip
     | done | rewrite L1; lia].
  rewrite with_uxip_twice. do 3 f_equal.
  rewrite Hw1.
  rewrite (drop_ge (u ++ _)), app_nil_r by (rewrite length_app, length_drop; dims).
  rewrite <- (take_drop (Z.to_nat NU_NAVI_TEST)
                (take (Z.to_nat (NU_NAVI_TEST + NXI_NAVI_TEST))
                      (u ++ drop (Z.to_nat NU_NAVI_TEST) w))).
  rewrite take_take, <- (assoc_L (++)). f_equal.
  - rewrite Nat.min_l by (unfold NU_NAVI_TEST, NXI_NAVI_TEST; lia).
    rewrite take_app_length'; [done|lia].
  - f_equal. unfold slice.
    replace (Z.to_nat (NU_NAVI_TEST + NXI_NAVI_TEST))
      with (Z.to_nat NU_NAVI_TEST + Z.to_nat NXI_NAVI_TEST)%nat by dims.
    rewrite <- take_drop_commute.
    by rewrite drop_app_length' by lia.
Qed.

(** ** Entering the kernel *)

Lemma alter_lookup_insert {A} (f : A → A) (g : gmap block A) b c :
  g !! b = Some c → alter f b g = <[b := f c]> g.
Proof.
  intros Hc. apply map_eq. intros b'. rewrite lookup_alter, lookup_insert.
  case_decide; subst; simpl; [by rewrite Hc|done].
Qed.

Lemma has_length_Some {A} (g : gmap block (list A)) b n :
  has_length g b n = true → ∃ c, g !! b = Some c ∧ Z.of_nat (length c) = n.
Proof.
  unfold has_length. destruct (g !! b) as [c|]; [|done].
  intros Hn%bool_decide_eq_true. eauto.
Qed.

Lemma declared_Some {A} (g : gmap block (list A)) b n :
  declared g b n = true → 0 < n →
  ∃ c, g !! b = Some c ∧ Z.of_nat (length c) = n.
Proof.
  unfold declared. intros Hd Hn. rewrite bool_decide_eq_true_2 in Hd by done.
  by apply has_length_Some.
Qed.

Section Invoke.
Context `{casadi_memory_h}.

Lemma layout_ok_uxip m :
  layout_ok m = true →
  ∃ w, reals m !! Uxip = Some w ∧ Z.of_nat (length w) = sizeof_uxip_space.
Proof.
  unfold layout_ok. intros [Hu _]%andb_true_iff. by apply has_length_Some.
Qed.

Lemma layout_ok_kernel m k :
  layout_ok m = true →
  declared (ints m) (IWork k) (SZ_IW k) = true
  ∧ declared (reals m) (RWork k) (SZ_W k) = true
  ∧ declared (ptrs m) (ResSlot k) (SZ_RES k) = true.
Proof.
  unfold layout_ok. intros [_ Hk]%andb_true_iff.
  rewrite forallb_forall in Hk.
  specialize (Hk k). rewrite !andb_true_iff in Hk.
  destruct Hk as [[? ?] ?]; [|done].
  destruct k; simpl; auto 10.
Qed.

Lemma result_space_eq k : 0 < SZ_RES k → result_space k = Ptr (ResSlot k) 0.
Proof.
  intros Hk. destruct k; simpl in *;
    unfold result_space_cost, result_space_grad, result_space_f1,
      result_space_f2, static_array;
    by rewrite bool_decide_eq_true_2.
Qed.

(** Binding the result slot. *)
Lemma bind_result_slot k (res : list ptr) r m c :
  0 < SZ_RES k → res !! 0%nat = Some r →
  ptrs m !! ResSlot k = Some c → 0 < Z.of_nat (length c) →
  (r0 ← deref res 0; store_ptr (result_space k +ₚ 0) r0) m
  = Some (tt, with_result_slot k r m).
Proof.
  intros Hk Hr Hc Hlen. unfold mbind, M_bind, deref. rewrite Hr.
  rewrite result_space_eq by done. simpl. rewrite Hc.
  rewrite bool_decide_eq_true_2 by lia.
  unfold with_result_slot, set_ptrs.
  by rewrite (alter_lookup_insert _ _ _ _ Hc).
Qed.

Lemma caller_inputs_full k m arg ins :
  k = Cost ∨ k = Grad → caller_inputs k m arg = Some ins →
  ∃ u xi p, ins = [u; xi; p]
    ∧ input_vec m arg 0 NU_NAVI_TEST = Some u
    ∧ input_vec m arg 1 NXI_NAVI_TEST = Some xi
    ∧ input_vec m arg 2 NP_NAVI_TEST = Some p.
Proof.
  intros [-> | ->]; simpl;
    destruct (input_vec m arg 0 NU_NAVI_TEST) as [u|]; try done; simpl;
    destruct (input_vec m arg 1 NXI_NAVI_TEST) as [xi|]; try done; simpl;
    destruct (input_vec m arg 2 NP_NAVI_TEST) as [p|]; try done; simpl;
    intros [= <-]; by exists u, xi, p.
Qed.

Lemma caller_inputs_reduced k m arg ins :
  k = MapF1 ∨ k = MapF2 → caller_inputs k m arg = Some ins →
  ∃ u p, ins = [u; p]
    ∧ input_vec m arg 0 NU_NAVI_TEST = Some u
    ∧ input_vec m arg 1 NP_NAVI_TEST = Some p.
Proof.
  intros [-> | ->]; simpl;
    destruct (input_vec m arg 0 NU_NAVI_TEST) as [u|]; try done; simpl;
    destruct (input_vec m arg 1 NP_NAVI_TEST) as [p|]; try done; simpl;
    intros [= <-]; by exists u, p.
Qed.

(** The copy routine of each kernel succeeds on valid inputs and leaves
    the packed workspace holding [packed]. *)
Lemma pack_run k m arg ins :
  layout_ok m = true → caller_inputs k m arg = Some ins →
  pack k arg m = Some (tt, with_uxip (packed k ins (uxip_contents m)) m).
Proof.
  intros (w & Hw & Hlen)%layout_ok_uxip Hin.
  unfold uxip_contents. rewrite Hw. simpl.
  destruct k.
  1,2: apply caller_inputs_full in Hin as (u & xi & p & -> & ? & ? & ?);
    [|by auto]; simpl; by eapply copy_args_into_uxip_space_run.
  1,2: apply caller_inputs_reduced in Hin as (u & p & -> & ? & ?);
    [|by auto]; simpl; by eapply copy_args_into_up_space_run.
Qed.

Context `{casadi_kernels}.

(** Every dispatch function is its copy routine, the binding of its
    result slot and the call of its kernel, whatever the kernel. *)
Lemma dispatch_unfold k arg res m :
  dispatch k arg res m
  = (pack k arg ≫= λ _,
     (r ← deref res 0; store_ptr (result_space k +ₚ 0) r) ≫= λ _,
     kernel_of k (argument_view k) (result_space k)
       (allocated_i_workspace k) (allocated_r_workspace k) NULL) m.
Proof.
  destruct k; simpl;
    unfold cost_function_navi_test, grad_cost_function_navi_test,
      mapping_f1_function_navi_test, mapping_f2_function_navi_test,
      mbind, M_bind;
    match goal with |- context [?copy arg m] =>
      destruct (copy arg m) as [[[] m1]|]; [|done] end;
    unfold deref; by destruct (res !! 0%nat).
Qed.

(** On valid inputs a dispatch function enters its kernel in the memory
    [at_invoke]. *)
Lemma dispatch_invoke k arg res m ins r :
  layout_ok m = true → 0 < SZ_RES k →
  caller_inputs k m arg = Some ins → res !! 0%nat = Some r →
  dispatch k arg res m
  = kernel_of k (argument_view k) (result_space k)
      (allocated_i_workspace k) (allocated_r_workspace k) NULL
      (at_invoke k ins r m).
Proof.
  intros Hlay Hk Hin Hr. rewrite dispatch_unfold.
  rewrite (bind_Some _ _ _ _ _ (pack_run k m arg ins Hlay Hin)).
  destruct (layout_ok_kernel m k Hlay) as (_ & _ & Hd).
  apply declared_Some in Hd as (c & Hc & Hlen); [|done].
  erewrite bind_Some; [done|].
  eapply bind_result_slot; [done|done|by apply Hc|lia].
Qed.
End Invoke.

(** ** Modelled kernels behind the dispatch functions *)

Lemma slice_app_l {A} (a b : list A) n :
  Z.of_nat (length a) = n → slice (a ++ b) 0 n = a.
Proof.
  intros <-. unfold slice. rewrite Nat2Z.id. change (Z.to_nat 0) with 0%nat.
  rewrite drop_0. by rewrite take_app_length.
Qed.

Lemma slice_app_r {A} (a b : list A) lo n :
  Z.of_nat (length a) = lo → slice (a ++ b) lo n = slice b 0 n.
Proof.
  intros <-. unfold slice. rewrite Nat2Z.id. change (Z.to_nat 0) with 0%nat.
  by rewrite drop_app_length.
Qed.

Lemma slice_all {A} (a : list A) n :
  Z.of_nat (length a) = n → slice a 0 n = a.
Proof.
  intros <-. unfold slice. rewrite Nat2Z.id. change (Z.to_nat 0) with 0%nat.
  rewrite drop_0. by rewrite take_ge.
Qed.

Lemma read_vec_block m b o n c :
  reals m !! b = Some c → 0 ≤ o → 0 ≤ n → o + n ≤ Z.of_nat (length c) →
  read_vec m (Ptr b o) n = Some (slice c o n).
Proof.
  intros Hc ? ? ?. unfold read_vec. rewrite Hc.
  by rewrite bool_decide_eq_true_2.
Qed.

(** A caller-owned pointer reads the same in two memories that agree on
    the caller's buffers. *)
Lemma read_vec_caller m m' r n :
  caller_owned r = true →
  (∀ i, reals m' !! Caller i = reals m !! Caller i) →
  read_vec m' r n = read_vec m r n.
Proof.
  destruct r as [|[i| | | |] o]; try done. intros _ Hm.
  unfold read_vec. by rewrite Hm.
Qed.

Lemma reals_at_invoke k ins r m b :
  b ≠ Uxip → reals (at_invoke k ins r m) !! b = reals m !! b.
Proof.
  intros Hb. unfold at_invoke, with_result_slot, with_uxip, set_ptrs, set_real.
  simpl. by rewrite lookup_insert_ne.
Qed.

Lemma reals_at_invoke_uxip k ins r m :
  reals (at_invoke k ins r m) !! Uxip = Some (packed k ins (uxip_contents m)).
Proof.
  unfold at_invoke, with_result_slot, with_uxip, set_ptrs, set_real.
  simpl. by rewrite lookup_insert_eq.
Qed.

Lemma load_vec_run m p n l :
  read_vec m p n = Some l → load_vec p n m = Some (l, m).
Proof. intros E. unfold load_vec. by rewrite E. Qed.

Lemma put_arena_lookup_ne {A} (g : gmap block (list A)) p new b :
  (∀ o, p ≠ Ptr b o) → put_arena g p new !! b = g !! b.
Proof.
  destruct p as [|b' o]; [done|]. intros Hp. simpl.
  apply lookup_alter_ne. intros ->. by apply (Hp o).
Qed.

Lemma kernel_body_run ev ins r0 iw w m old :
  is_Some (arena (ints m) iw) → is_Some (arena (reals m) w) →
  read_vec (scratch_step ev ins iw w m) r0
    (Z.of_nat (length (snd (k_value ev ins)))) = Some old →
  kernel_body ev ins r0 iw w m
  = Some (fst (k_value ev ins),
          write_vec r0 (snd (k_value ev ins)) (scratch_step ev ins iw w m)).
Proof.
  intros [siw Hiw] [sw Hw] Hroom.
  unfold scratch_step in *. rewrite Hiw, Hw in *.
  unfold kernel_body, mbind, M_bind, load_arena_int, load_arena_real,
    store_arena_int, store_arena_real, store_vec.
  rewrite Hiw, Hw, Hiw. simpl. rewrite Hw, Hroom. done.
Qed.

Section ModelledRun.
Context `{casadi_memory_h}.
Variable km : kernel_id → kernel_model.

Lemma arena_int_declared m k :
  layout_ok m = true → is_Some (arena (ints m) (allocated_i_workspace k)).
Proof.
  intros (Hd & _ & _)%(layout_ok_kernel m k).
  assert (allocated_i_workspace k = static_array (SZ_IW k) (IWork k)) as ->
    by by destruct k.
  unfold static_array. case_bool_decide as Hs; [|by eexists].
  apply declared_Some in Hd as (c & Hc & _); [|done]. simpl. eauto.
Qed.

Lemma arena_real_declared m k :
  layout_ok m = true → is_Some (arena (reals m) (allocated_r_workspace k)).
Proof.
  intros (_ & Hd & _)%(layout_ok_kernel m k).
  assert (allocated_r_workspace k = static_array (SZ_W k) (RWork k)) as ->
    by by destruct k.
  unfold static_array. case_bool_decide as Hs; [|by eexists].
  apply declared_Some in Hd as (c & Hc & _); [|done]. simpl. eauto.
Qed.

Lemma allocated_r_workspace_block k b o :
  allocated_r_workspace k = Ptr b o → b = RWork k.
Proof.
  assert (allocated_r_workspace k = static_array (SZ_W k) (RWork k)) as ->
    by by destruct k.
  unfold static_array. case_bool_decide; [|done]. by intros [= <- _].
Qed.

Lemma allocated_i_workspace_block k b o :
  allocated_i_workspace k = Ptr b o → b = IWork k.
Proof.
  assert (allocated_i_workspace k = static_array (SZ_IW k) (IWork k)) as ->
    by by destruct k.
  unfold static_array. case_bool_decide; [|done]. by intros [= <- _].
Qed.

(** The scratch update of kernel [k] touches only [RWork k] among the real
    blocks. *)
Lemma reals_scratch_step k ev ins m b :
  b ≠ RWork k →
  reals (scratch_step ev ins (allocated_i_workspace k)
           (allocated_r_workspace k) m) !! b = reals m !! b.
Proof.
  intros Hb. unfold scratch_step.
  destruct (arena (ints m) _); [|done]. destruct (arena (reals m) _); [|done].
  simpl. apply put_arena_lookup_ne. intros o Hp.
  apply allocated_r_workspace_block in Hp. by subst.
Qed.

(** The kernel reads back from the packed workspace the vectors the caller
    passed. *)
Lemma load_args_full M u xi p pad :
  reals M !! Uxip = Some (u ++ xi ++ p) →
  Z.of_nat (length u) = NU_NAVI_TEST →
  Z.of_nat (length xi) = NXI_NAVI_TEST →
  Z.of_nat (length p) = NP_NAVI_TEST →
  load_args (region_bases Cost ++ pad) (declared_inputs Cost) M
  = Some ([u; xi; p], M).
Proof.
  intros HU Lu Lxi Lp.
  cbn [region_bases declared_inputs app load_args].
  unfold workspace_at, mbind, M_bind, mret, M_ret.
  rewrite (load_vec_run _ _ _ u), (load_vec_run _ _ _ xi),
    (load_vec_run _ _ _ p); [done| | |].
  - rewrite (read_vec_block _ _ _ _ _ HU); [|dims|dims|rewrite !length_app; dims].
    f_equal. rewrite (assoc_L (++) u xi), slice_app_r by (rewrite length_app; lia).
    by apply slice_all.
  - rewrite (read_vec_block _ _ _ _ _ HU); [|dims|dims|rewrite !length_app; dims].
    f_equal. rewrite slice_app_r by lia. by apply slice_app_l.
  - rewrite (read_vec_block _ _ _ _ _ HU); [|dims|dims|rewrite !length_app; dims].
    f_equal. by apply slice_app_l.
Qed.

Lemma load_args_reduced M u s p pad :
  reals M !! Uxip = Some (u ++ s ++ p) →
  Z.of_nat (length u) = NU_NAVI_TEST →
  Z.of_nat (length s) = NXI_NAVI_TEST →
  Z.of_nat (length p) = NP_NAVI_TEST →
  load_args (region_bases MapF1 ++ pad) (declared_inputs MapF1) M
  = Some ([u; p], M).
Proof.
  intros HU Lu Ls Lp.
  cbn [region_bases declared_inputs app load_args].
  unfold workspace_at, mbind, M_bind, mret, M_ret.
  rewrite (load_vec_run _ _ _ u), (load_vec_run _ _ _ p); [done| |].
  - rewrite (read_vec_block _ _ _ _ _ HU); [|dims|dims|rewrite !length_app; dims].
    f_equal. rewrite (assoc_L (++) u s), slice_app_r by (rewrite length_app; lia).
    by apply slice_all.
  - rewrite (read_vec_block _ _ _ _ _ HU); [|dims|dims|rewrite !length_app; dims].
    f_equal. by apply slice_app_l.
Qed.

Lemma load_args_at_invoke k arg ins r m :
  layout_ok m = true → n_in k ≤ SZ_ARG k →
  caller_inputs k m arg = Some ins →
  load_args (argument_view k) (declared_inputs k) (at_invoke k ins r m)
  = Some (ins, at_invoke k ins r m).
Proof.
  intros (w & Hw & Hlen)%layout_ok_uxip Hn Hin.
  unfold argument_view, array_init.
  rewrite resize_ge by (unfold n_in in Hn; destruct k; simpl in *; lia).
  pose proof (reals_at_invoke_uxip k ins r m) as HU.
  unfold uxip_contents in HU. rewrite Hw in HU. simpl in HU.
  destruct k.
  1,2: apply caller_inputs_full in Hin as (u & xi & p & -> & Hu & Hxi & Hp);
    [|by auto];
    apply (load_args_full _ u xi p); [done|by eapply input_vec_length..].
  1,2: apply caller_inputs_reduced in Hin as (u & p & -> & Hu & Hp);
    [|by auto];
    apply (load_args_reduced _ u (slice w NU_NAVI_TEST NXI_NAVI_TEST) p);
    [done|by eapply input_vec_length| |by eapply input_vec_length];
    rewrite slice_length; dims.
Qed.

Lemma arena_real_at_invoke k k' ins r m :
  arena (reals (at_invoke k ins r m)) (allocated_r_workspace k')
  = arena (reals m) (allocated_r_workspace k').
Proof.
  destruct (allocated_r_workspace k') as [|b o] eqn:E; [done|].
  apply allocated_r_workspace_block in E as ->. unfold arena.
  case_bool_decide; [|done]. by apply reals_at_invoke.
Qed.

Lemma load_ptr_at_invoke k ins r m :
  layout_ok m = true → 0 < SZ_RES k →
  load_ptr (result_space k +ₚ 0) (at_invoke k ins r m)
  = Some (r, at_invoke k ins r m).
Proof.
  intros (_ & _ & Hd)%(layout_ok_kernel m k) Hk.
  apply declared_Some in Hd as (c & Hc & Hlen); [|done].
  rewrite result_space_eq by done. simpl.
  unfold at_invoke at 1, with_result_slot, set_ptrs. simpl.
  rewrite lookup_alter_eq, Hc. simpl.
  rewrite list_lookup_insert_eq by lia. done.
Qed.

Lemma kernel_of_modelled k :
  @kernel_of (modelled_kernels km) k = run_kernel (declared_inputs k) (km k).
Proof. by destruct k. Qed.

(** The caller's buffers when the kernel has written its scratch. *)
Lemma reals_scratch_at_invoke k ins r m i :
  reals (scratch_step (km k) ins (allocated_i_workspace k)
           (allocated_r_workspace k) (at_invoke k ins r m)) !! Caller i
  = reals m !! Caller i.
Proof.
  rewrite reals_scratch_step by done.
  exact (reals_at_invoke k ins r m (Caller i) ltac:(done)).
Qed.

(** A call on valid inputs returns: its status is the kernel's and its
    effect on the memory is [after_call]. *)
Lemma dispatch_modelled_run k arg res m ins r old :
  layout_ok m = true → 0 < SZ_RES k → n_in k ≤ SZ_ARG k →
  caller_inputs k m arg = Some ins →
  res !! 0%nat = Some r → caller_owned r = true →
  read_vec m r (Z.of_nat (length (snd (k_value (km k) ins)))) = Some old →
  dispatch_modelled km k arg res m
  = Some (fst (k_value (km k) ins), after_call km k ins r m).
Proof.
  intros Hlay Hres Harg Hin Hr Hown Hroom.
  unfold dispatch_modelled.
  rewrite (dispatch_invoke k arg res m ins r) by done.
  rewrite kernel_of_modelled. unfold run_kernel.
  rewrite (bind_Some _ _ _ _ _ (load_args_at_invoke k arg ins r m Hlay Harg Hin)).
  rewrite (bind_Some _ _ _ _ _ (load_ptr_at_invoke k ins r m Hlay Hres)).
  unfold after_call. apply (kernel_body_run _ _ _ _ _ _ old).
  - by apply (arena_int_declared m).
  - rewrite arena_real_at_invoke. by apply arena_real_declared.
  - rewrite <- Hroom. apply read_vec_caller; [done|].
    intros i. apply reals_scratch_at_invoke.
Qed.
End ModelledRun.

(** ** The copy routines never look at the pointer store *)

Lemma ptrs_blind_ret {A} (x : A) : ptrs_blind (mret x : M A).
Proof. by intros g m. Qed.

Lemma ptrs_blind_bind {A B} (c : M A) (f : A → M B) :
  ptrs_blind c → (∀ x, ptrs_blind (f x)) → ptrs_blind (c ≫= f).
Proof.
  intros Hc Hf g m. unfold mbind, M_bind. rewrite Hc.
  destruct (c m) as [[x m1]|]; simpl; [apply Hf|done].
Qed.

Lemma ptrs_blind_deref a k : ptrs_blind (deref a k).
Proof. intros g m. unfold deref. by destruct (a !! k). Qed.

Lemma ptrs_blind_load_real p : ptrs_blind (load_real p).
Proof.
  intros g m. destruct p as [|b o]; [done|]. simpl.
  case_bool_decide; [|done]. destruct (reals m !! b) as [c|]; [|done].
  by destruct (c !! Z.to_nat o).
Qed.

Lemma ptrs_blind_store_real p x : ptrs_blind (store_real p x).
Proof.
  intros g m. destruct p as [|b o]; [done|]. simpl.
  destruct (reals m !! b) as [c|]; [|done]. by case_bool_decide.
Qed.

Lemma ptrs_blind_for_from n : ∀ i body,
  (∀ j, ptrs_blind (body j)) → ptrs_blind (for_from n i body).
Proof.
  induction n as [|n IH]; intros i body Hb; simpl.
  - apply ptrs_blind_ret.
  - apply ptrs_blind_bind; [done|]. intros _. by apply IH.
Qed.

Lemma ptrs_blind_copy_step arg k dst i :
  ptrs_blind (a ← deref arg k; x ← load_real (a +ₚ i); store_real (dst i) x).
Proof.
  apply ptrs_blind_bind; [apply ptrs_blind_deref|]. intros a.
  apply ptrs_blind_bind; [apply ptrs_blind_load_real|]. intros x.
  apply ptrs_blind_store_real.
Qed.

Lemma ptrs_blind_for_lt N body :
  (∀ j, ptrs_blind (body j)) → ptrs_blind (for_lt N body).
Proof. apply ptrs_blind_for_from. Qed.

(** ** A copy loop reads every element it is asked to copy *)

Lemma store_real_uxip_frame o x m m' b :
  store_real (Ptr Uxip o) x m = Some (tt, m') → b ≠ Uxip →
  reals m' !! b = reals m !! b.
Proof.
  unfold store_real. destruct (reals m !! Uxip) as [c|]; [|done].
  case_bool_decide; [|done]. intros [= <-] Hb. simpl.
  by rewrite lookup_insert_ne.
Qed.

Lemma copy_step_frame arg k off i m m' b :
  (a ← deref arg k; x ← load_real (a +ₚ i);
   store_real (uxip_space +ₚ (off + i)) x) m = Some (tt, m') →
  b ≠ Uxip → reals m' !! b = reals m !! b.
Proof.
  unfold mbind, M_bind, deref. destruct (arg !! k) as [a|]; [|done].
  destruct (load_real (a +ₚ i) m) as [[x m1]|] eqn:Hl; [|done].
  assert (m1 = m) as ->.
  { unfold load_real in Hl. destruct (a +ₚ i) as [|b' o']; [done|].
    case_bool_decide; [|done]. destruct (reals m !! b') as [c|]; [|done].
    destruct (c !! Z.to_nat o'); [|done]. by injection Hl as _ ->. }
  apply store_real_uxip_frame.
Qed.

Lemma for_from_copy_frame arg k off n : ∀ i m m' b,
  for_from n i (λ i, a ← deref arg k; x ← load_real (a +ₚ i);
                     store_real (uxip_space +ₚ (off + i)) x) m
  = Some (tt, m') →
  b ≠ Uxip → reals m' !! b = reals m !! b.
Proof.
  induction n as [|n IH]; intros i m m' b; cbn [for_from].
  - by intros [= <-].
  - destruct ((a ← deref arg k; x ← load_real (a +ₚ i);
               store_real (uxip_space +ₚ (off + i)) x) m)
      as [[[] m1]|] eqn:Hs.
    + rewrite (bind_Some _ _ _ _ _ Hs).
      intros Hrest Hb. rewrite (IH _ _ _ _ Hrest Hb).
      by eapply copy_step_frame.
    + by rewrite (bind_None _ _ _ Hs).
Qed.

Lemma for_from_copy_short arg k off b so c n : ∀ i m,
  arg !! k = Some (Ptr b so) → b ≠ Uxip → 0 ≤ so → 0 ≤ i →
  reals m !! b = Some c →
  so + i ≤ Z.of_nat (length c) < so + i + Z.of_nat n →
  for_from n i (λ i, a ← deref arg k; x ← load_real (a +ₚ i);
                     store_real (uxip_space +ₚ (off + i)) x) m
  = None.
Proof.
  induction n as [|n IH]; intros i m Harg Hb Hso Hi Hc Hlen; [lia|].
  cbn [for_from].
  destruct ((a ← deref arg k; x ← load_real (a +ₚ i);
             store_real (uxip_space +ₚ (off + i)) x) m)
    as [[[] m1]|] eqn:Hs; [|by rewrite (bind_None _ _ _ Hs)].
  rewrite (bind_Some _ _ _ _ _ Hs).
  assert (Hc1 : reals m1 !! b = Some c).
  { rewrite <- Hc. by eapply copy_step_frame. }
  apply IH; try done; try lia.
  assert (so + i < Z.of_nat (length c)); [|lia].
  revert Hs. unfold mbind, M_bind, deref. rewrite Harg. simpl.
  rewrite bool_decide_eq_true_2 by lia. rewrite Hc.
  destruct (c !! Z.to_nat (so + i)) as [x|] eqn:Hx; [|done].
  intros _. apply lookup_lt_Some in Hx. lia.
Qed.

Lemma for_lt_copy_frame arg k off N m m' b (body : Z → M unit) :
  (∀ i m', body i m' =
     (a ← deref arg k; x ← load_real (a +ₚ i);
      store_real (uxip_space +ₚ (off + i)) x) m') →
  for_lt N body m = Some (tt, m') →
  b ≠ Uxip → reals m' !! b = reals m !! b.
Proof.
  intros Hbody. unfold for_lt.
  rewrite (for_from_ext _ _ body _ _ Hbody). apply for_from_copy_frame.
Qed.

(** A source buffer with fewer than [N] elements from the pointer on makes
    the loop read outside it. *)
Lemma for_lt_copy_short arg k off N b so c m (body : Z → M unit) :
  (∀ i m', body i m' =
     (a ← deref arg k; x ← load_real (a +ₚ i);
      store_real (uxip_space +ₚ (off + i)) x) m') →
  arg !! k = Some (Ptr b so) → b ≠ Uxip → 0 ≤ so →
  reals m !! b = Some c →
  so ≤ Z.of_nat (length c) < so + N →
  for_lt N body m = None.
Proof.
  intros Hbody Harg Hb Hso Hc Hlen. unfold for_lt.
  rewrite (for_from_ext _ _ body _ _ Hbody).
  eapply for_from_copy_short; try done. lia.
Qed.

#[global] Opaque for_lt.

Lemma ptrs_blind_pack k arg : ptrs_blind (pack k arg).
Proof.
  assert (Hloop : ∀ N n dst,
    ptrs_blind (for_lt N (λ i, a ← deref arg n; x ← load_real (a +ₚ i);
                               store_real (dst i) x))).
  { intros N n dst. apply ptrs_blind_for_lt. intros j.
    apply (ptrs_blind_copy_step arg n dst). }
  destruct k; unfold pack, copy_args_into_uxip_space, copy_args_into_up_space.
  1,2: apply ptrs_blind_bind; [apply (Hloop _ _ (λ i, uxip_space +ₚ i))|];
    intros _; apply ptrs_blind_bind; [apply (Hloop _ _ (λ i, uxip_space +ₚ _))|];
    intros _; apply (Hloop _ _ (λ i, uxip_space +ₚ _)).
  1,2: apply ptrs_blind_bind; [apply (Hloop _ _ (λ i, uxip_space +ₚ i))|];
    intros _; apply (Hloop _ _ (λ i, uxip_space +ₚ _)).
Qed.

Lemma set_ptrs_id m : set_ptrs (ptrs m) m = m.
Proof. by destruct m. Qed.

(** A copy routine changes neither the pointer store nor, by the same
    argument, its own result when the pointer store is changed. *)
Lemma pack_ptrs k arg m m1 :
  pack k arg m = Some (tt, m1) → ptrs m1 = ptrs m.
Proof.
  intros Hp. pose proof (ptrs_blind_pack k arg (ptrs m) m) as Hb.
  rewrite set_ptrs_id, Hp in Hb. simpl in Hb. by injection Hb as ->.
Qed.

Lemma insert_alter_same {A} (f : A → A) (g : gmap block A) b x :
  <[b := x]> (alter f b g) = <[b := x]> g.
Proof.
  apply map_eq. intros b'. rewrite !lookup_insert.
  case_decide; [done|]. by rewrite lookup_alter_ne.
Qed.

(** Binding the result slot forgets what the slot was bound to. *)
Lemma store_ptr_rebinds b q r m :
  store_ptr (Ptr b 0) r (set_ptrs (alter (<[0%nat := q]>) b (ptrs m)) m)
  = store_ptr (Ptr b 0) r m.
Proof.
  unfold store_ptr, set_ptrs. simpl. rewrite lookup_alter_eq.
  destruct (ptrs m !! b) as [c|]; simpl; [|done].
  rewrite length_insert. case_bool_decide; [|done].
  by rewrite insert_alter_same, list_insert_insert_eq.
Qed.

(** ** The layout of the statics is preserved *)

Lemma has_length_ext {A} (g g' : gmap block (list A)) b n :
  length <$> g' !! b = length <$> g !! b →
  has_length g' b n = has_length g b n.
Proof.
  unfold has_length.
  destruct (g' !! b), (g !! b); simpl; intros E; try done.
  injection E as E. by rewrite E.
Qed.

Lemma declared_ext {A} (g g' : gmap block (list A)) b n :
  length <$> g' !! b = length <$> g !! b →
  declared g' b n = declared g b n.
Proof.
  intros E. unfold declared. case_bool_decide; [|done].
  by apply has_length_ext.
Qed.

Lemma same_shape_trans m1 m2 m3 :
  same_shape m1 m2 → same_shape m2 m3 → same_shape m1 m3.
Proof.
  intros (A1 & B1 & C1) (A2 & B2 & C2). repeat split; intros b.
  - intros Hb. by rewrite A2, A1.
  - by rewrite B2, B1.
  - by rewrite C2, C1.
Qed.

Lemma length_alter_lookup {A} (f : list A → list A) (g : gmap block (list A)) b b' :
  (∀ c, length (f c) = length c) →
  length <$> alter f b g !! b' = length <$> g !! b'.
Proof.
  intros Hf. rewrite lookup_alter. case_decide; [subst|done].
  destruct (g !! b') as [c|]; simpl; [by rewrite Hf|done].
Qed.

Lemma length_overwrite {A} (new old : list A) :
  length (overwrite new old) = length old.
Proof.
  unfold overwrite. rewrite length_take, length_app, length_drop. lia.
Qed.

Lemma length_put_arena {A} (g : gmap block (list A)) p new b :
  length <$> put_arena g p new !! b = length <$> g !! b.
Proof.
  destruct p as [|b' o]; [done|]. simpl.
  apply length_alter_lookup, length_overwrite.
Qed.

Section Shape.
Context `{casadi_memory_h}.

Lemma layout_ok_shape m m' : same_shape m m' → layout_ok m' = layout_ok m.
Proof.
  intros (A & B & C). unfold layout_ok. cbn [forallb].
  rewrite (has_length_ext (reals m) (reals m') Uxip) by by apply A.
  rewrite !(declared_ext (ints m) (ints m')) by apply B.
  rewrite !(declared_ext (reals m) (reals m')) by by apply A.
  by rewrite !(declared_ext (ptrs m) (ptrs m')) by apply C.
Qed.

Lemma same_shape_with_uxip w w' m :
  reals m !! Uxip = Some w → length w' = length w →
  same_shape m (with_uxip w' m).
Proof.
  intros Hw Hlen. repeat split; try done. intros b _.
  unfold with_uxip, set_real. simpl. rewrite lookup_insert.
  case_decide; [subst|done]. rewrite Hw. simpl. by rewrite Hlen.
Qed.

Lemma same_shape_with_result_slot k r m : same_shape m (with_result_slot k r m).
Proof.
  repeat split; try done. intros b.
  unfold with_result_slot, set_ptrs. simpl.
  apply length_alter_lookup. intros c. apply length_insert.
Qed.

Lemma same_shape_scratch_step ev ins iw w m :
  same_shape m (scratch_step ev ins iw w m).
Proof.
  unfold scratch_step.
  destruct (arena (ints m) iw); [|done]. destruct (arena (reals m) w); [|done].
  repeat split; try done; intros b; intros; simpl; apply length_put_arena.
Qed.

Lemma same_shape_write_vec r l m :
  caller_owned r = true → same_shape m (write_vec r l m).
Proof.
  destruct r as [|[i| | | |] o]; try done. intros _.
  repeat split; try done. intros b Hb. simpl.
  rewrite lookup_alter_ne; [done|]. intros <-. done.
Qed.

Lemma same_shape_corrupt_scratch k' ji jr m :
  same_shape m (corrupt_scratch k' ji jr m).
Proof.
  repeat split; try done; intros b; intros; simpl; apply length_put_arena.
Qed.

Lemma length_packed k m arg ins :
  layout_ok m = true → caller_inputs k m arg = Some ins →
  length (packed k ins (uxip_contents m)) = length (uxip_contents m).
Proof.
  intros (w & Hw & Hlen)%layout_ok_uxip Hin.
  unfold uxip_contents. rewrite Hw. simpl. destruct k.
  1,2: apply caller_inputs_full in Hin as (u & xi & p & -> & Hu & Hxi & Hp);
    [|by auto];
    apply input_vec_length in Hu, Hxi, Hp; simpl; rewrite !length_app; dims.
  1,2: apply caller_inputs_reduced in Hin as (u & p & -> & Hu & Hp);
    [|by auto];
    apply input_vec_length in Hu, Hp; simpl;
    rewrite !length_app, slice_length; dims.
Qed.

Lemma same_shape_at_invoke k m arg ins r :
  layout_ok m = true → caller_inputs k m arg = Some ins →
  same_shape m (at_invoke k ins r m).
Proof.
  intros Hlay Hin. unfold at_invoke.
  eapply same_shape_trans; [|apply same_shape_with_result_slot].
  destruct (layout_ok_uxip m Hlay) as (w & Hw & _).
  apply (same_shape_with_uxip w); [done|].
  rewrite (length_packed k m arg ins Hlay Hin).
  unfold uxip_contents. by rewrite Hw.
Qed.

(** A returned call leaves the statics laid out as declared. *)
Lemma layout_ok_after_call km k m arg ins r :
  layout_ok m = true → caller_inputs k m arg = Some ins →
  caller_owned r = true →
  layout_ok (after_call km k ins r m) = true.
Proof.
  intros Hlay Hin Hr. rewrite <- Hlay. apply layout_ok_shape.
  unfold after_call.
  eapply same_shape_trans; [by eapply same_shape_at_invoke|].
  eapply same_shape_trans; [apply same_shape_scratch_step|].
  by apply same_shape_write_vec.
Qed.
End Shape.

(** ** Reading and writing vectors *)

Lemma read_vec_write_vec m r l old :
  read_vec m r (Z.of_nat (length l)) = Some old →
  read_vec (write_vec r l m) r (Z.of_nat (length l)) = Some l.
Proof.
  destruct r as [|b o]; [done|]. intros Hr.
  apply read_vec_Some in Hr as (c & Hc & Ho & _ & Hfit & _).
  unfold read_vec, write_vec. simpl. rewrite lookup_alter_eq, Hc. simpl.
  assert (Lt : length (take (Z.to_nat o) c) = Z.to_nat o)
    by (rewrite length_take; lia).
  rewrite bool_decide_eq_true_2.
  2:{ unfold splice. rewrite !length_app, length_drop. lia. }
  f_equal. unfold splice.
  rewrite slice_app_r by lia. by apply slice_app_l.
Qed.

Lemma slice_splice_disjoint {A} (c l : list A) (o : nat) lo n :
  0 ≤ lo → 0 ≤ n → (o + length l ≤ length c)%nat →
  lo + n ≤ Z.of_nat o ∨ Z.of_nat (o + length l) ≤ lo →
  slice (splice o l c) lo n = slice c lo n.
Proof.
  intros Hlo Hn Hfit [Hbefore | Hafter]; unfold slice, splice.
  - rewrite drop_app_le by (rewrite length_take; lia).
    rewrite take_app_le by (rewrite length_drop, length_take; lia).
    rewrite !take_drop_commute. f_equal.
    rewrite take_take. f_equal. lia.
  - rewrite drop_app_ge by (rewrite length_take; lia).
    rewrite drop_app_ge by (rewrite length_take; lia).
    rewrite drop_drop. do 2 f_equal. rewrite length_take. lia.
Qed.

Lemma length_splice {A} (c l : list A) (o : nat) :
  (o + length l ≤ length c)%nat → length (splice o l c) = length c.
Proof.
  intros Hfit. unfold splice.
  rewrite !length_app, length_take, length_drop. lia.
Qed.

(** Writing [l] at [p], where it fits, does not change what a region
    that does not overlap it holds. *)
Lemma read_vec_write_vec_disjoint m p l q n old :
  read_vec m p (Z.of_nat (length l)) = Some old →
  regions_disjoint q n p (Z.of_nat (length l)) = true →
  read_vec (write_vec p l m) q n = read_vec m q n.
Proof.
  destruct p as [|b o]; [done|]. destruct q as [|b' o']; [done|].
  intros Hr Hd.
  apply read_vec_Some in Hr as (c & Hc & Ho & _ & Hfit & _).
  unfold read_vec, write_vec. simpl.
  destruct (decide (b = b')) as [<-|Hne].
  - rewrite lookup_alter_eq, Hc. simpl.
    rewrite length_splice by lia.
    case_bool_decide as Hb; [|done]. f_equal.
    simpl in Hd. rewrite bool_decide_eq_true_2 in Hd by done. simpl in Hd.
    apply orb_true_iff in Hd as [Hd%bool_decide_eq_true | Hd%bool_decide_eq_true];
      apply slice_splice_disjoint; lia.
  - by rewrite lookup_alter_ne.
Qed.

Lemma input_vec_ext m m' arg j n :
  (∀ i, reals m' !! Caller i = reals m !! Caller i) →
  input_vec m' arg j n = input_vec m arg j n.
Proof.
  intros Hm. unfold input_vec. destruct (arg !! j) as [p|]; [|done].
  destruct (caller_owned p) eqn:Hp; [|done]. by apply read_vec_caller.
Qed.

Lemma caller_inputs_ext k m m' arg :
  (∀ i, reals m' !! Caller i = reals m !! Caller i) →
  caller_inputs k m' arg = caller_inputs k m arg.
Proof.
  intros Hm. unfold caller_inputs.
  by rewrite !(input_vec_ext m m' arg _ _ Hm).
Qed.

Lemma input_vec_write_vec m arg j n r l old :
  read_vec m r (Z.of_nat (length l)) = Some old →
  apart arg j n r (Z.of_nat (length l)) = true →
  input_vec (write_vec r l m) arg j n = input_vec m arg j n.
Proof.
  intros Hr Ha. unfold input_vec, apart in *.
  destruct (arg !! j) as [p|]; [|done].
  destruct (caller_owned p); [|done].
  by eapply read_vec_write_vec_disjoint.
Qed.

Lemma caller_inputs_write_vec k m arg r l old :
  read_vec m r (Z.of_nat (length l)) = Some old →
  inputs_apart k arg r (Z.of_nat (length l)) = true →
  caller_inputs k (write_vec r l m) arg = caller_inputs k m arg.
Proof.
  intros Hr Ha. unfold caller_inputs, inputs_apart in *.
  destruct k; rewrite ?andb_true_iff in Ha;
    repeat match goal with H : _ ∧ _ |- _ => destruct H end;
    by rewrite !(input_vec_write_vec m arg _ _ r l old).
Qed.

Lemma reals_write_vec_caller r l M m :
  caller_owned r = true →
  (∀ i, reals M !! Caller i = reals m !! Caller i) →
  ∀ i, reals (write_vec r l M) !! Caller i = reals (write_vec r l m) !! Caller i.
Proof.
  destruct r as [|[j| | | |] o]; try done. intros _ HM i. simpl.
  rewrite !lookup_alter. case_decide; [|done]. by rewrite HM.
Qed.

Section AfterCall.
Context `{casadi_memory_h}.
Variable km : kernel_id → kernel_model.

(** Of the caller's buffers a call changes only the cells the kernel's
    output is written to. *)
Lemma caller_heap_after_call k ins r m i :
  caller_owned r = true →
  reals (after_call km k ins r m) !! Caller i
  = reals (write_vec r (snd (k_value (km k) ins)) m) !! Caller i.
Proof.
  intros Hr. unfold after_call. apply reals_write_vec_caller; [done|].
  intros j. apply reals_scratch_at_invoke.
Qed.

Lemma read_vec_after_call k ins r m q n :
  caller_owned r = true → caller_owned q = true →
  read_vec (after_call km k ins r m) q n
  = read_vec (write_vec r (snd (k_value (km k) ins)) m) q n.
Proof.
  intros Hr Hq. apply read_vec_caller; [done|].
  intros i. by apply caller_heap_after_call.
Qed.
End AfterCall.

Lemma regions_disjoint_sym p n q k :
  regions_disjoint p n q k = regions_disjoint q k p n.
Proof.
  destruct p as [|b o], q as [|b' o']; try done. simpl.
  rewrite <- !orb_assoc, (orb_comm (bool_decide (o + n ≤ o'))).
  f_equal. f_equal. apply bool_decide_ext. naive_solver.
Qed.

(** ** Scratch arenas of different kernels *)

Section Arenas.
Context `{casadi_memory_h}.

Lemma allocated_i_workspace_eq k :
  allocated_i_workspace k = static_array (SZ_IW k) (IWork k).
Proof. by destruct k. Qed.

Lemma allocated_r_workspace_eq k :
  allocated_r_workspace k = static_array (SZ_W k) (RWork k).
Proof. by destruct k. Qed.

Lemma arena_int_agree {A} k (g1 g2 : gmap block (list A)) :
  g1 !! IWork k = g2 !! IWork k →
  arena g1 (allocated_i_workspace k) = arena g2 (allocated_i_workspace k).
Proof.
  intros E. rewrite allocated_i_workspace_eq. unfold static_array.
  case_bool_decide; [|done]. simpl. by rewrite E.
Qed.

Lemma arena_real_agree {A} k (g1 g2 : gmap block (list A)) :
  g1 !! RWork k = g2 !! RWork k →
  arena g1 (allocated_r_workspace k) = arena g2 (allocated_r_workspace k).
Proof.
  intros E. rewrite allocated_r_workspace_eq. unfold static_array.
  case_bool_decide; [|done]. simpl. by rewrite E.
Qed.

Lemma put_arena_agree {A} (g1 g2 : gmap block (list A)) p new b :
  g1 !! b = g2 !! b → put_arena g1 p new !! b = put_arena g2 p new !! b.
Proof.
  intros E. destruct p as [|b' o]; [done|]. simpl.
  rewrite !lookup_alter. case_decide; [subst; by rewrite E|done].
Qed.

(** The scratch a kernel leaves depends on the memory only through its own
    two arenas. *)
Lemma scratch_step_agree ev ins k M1 M2 :
  ints M1 !! IWork k = ints M2 !! IWork k →
  reals M1 !! RWork k = reals M2 !! RWork k →
  reals (scratch_step ev ins (allocated_i_workspace k)
           (allocated_r_workspace k) M1) !! RWork k
  = reals (scratch_step ev ins (allocated_i_workspace k)
             (allocated_r_workspace k) M2) !! RWork k
  ∧ ints (scratch_step ev ins (allocated_i_workspace k)
            (allocated_r_workspace k) M1) !! IWork k
    = ints (scratch_step ev ins (allocated_i_workspace k)
              (allocated_r_workspace k) M2) !! IWork k.
Proof.
  intros Ei Er. unfold scratch_step.
  rewrite (arena_int_agree k _ _ Ei), (arena_real_agree k _ _ Er).
  destruct (arena (ints M2) _); [|done].
  destruct (arena (reals M2) _); [|done].
  simpl. split; by apply put_arena_agree.
Qed.

Lemma corrupt_scratch_reals k' ji jr m b :
  b ≠ RWork k' → reals (corrupt_scratch k' ji jr m) !! b = reals m !! b.
Proof.
  intros Hb. unfold corrupt_scratch. simpl.
  apply put_arena_lookup_ne. intros o Hp.
  apply allocated_r_workspace_block in Hp. by subst.
Qed.

Lemma corrupt_scratch_ints k' ji jr m b :
  b ≠ IWork k' → ints (corrupt_scratch k' ji jr m) !! b = ints m !! b.
Proof.
  intros Hb. unfold corrupt_scratch. simpl.
  apply put_arena_lookup_ne. intros o Hp.
  apply allocated_i_workspace_block in Hp. by subst.
Qed.

Lemma reals_write_vec_static r l m b :
  caller_owned r = true → static_block b →
  reals (write_vec r l m) !! b = reals m !! b.
Proof.
  destruct r as [|[i| | | |] o]; try done. intros _ Hb. simpl.
  apply lookup_alter_ne. by intros <-.
Qed.
End Arenas.

(** ** The copy routines need all [Np] parameters *)

Lemma copy_args_into_uxip_space_short arg m i o c :
  arg !! 2%nat = Some (Ptr (Caller i) o) → reals m !! Caller i = Some c →
  0 ≤ o ≤ Z.of_nat (length c) → Z.of_nat (length c) - o < NP_NAVI_TEST →
  copy_args_into_uxip_space arg m = None.
Proof.
  intros Harg Hc Ho Hshort. unfold copy_args_into_uxip_space.
  match goal with |- (?c ≫= _) m = _ =>
    destruct (c m) as [[[] m1]|] eqn:H1;
      [rewrite (bind_Some _ _ _ _ _ H1)|by rewrite (bind_None _ _ _ H1)] end.
  match goal with |- (?c ≫= _) m1 = _ =>
    destruct (c m1) as [[[] m2]|] eqn:H2;
      [rewrite (bind_Some _ _ _ _ _ H2)|by rewrite (bind_None _ _ _ H2)] end.
  eapply (for_lt_copy_short arg 2 (NU_NAVI_TEST + NXI_NAVI_TEST) _
            (Caller i) o c); [done|done|done|lia| |lia].
  rewrite (for_lt_copy_frame arg 1 NU_NAVI_TEST _ m1 m2 _ _ ltac:(done) H2)
    by done.
  by rewrite (for_lt_copy_frame arg 0 0 _ m m1 _ _ ltac:(done) H1) by done.
Qed.

Lemma copy_args_into_up_space_short arg m i o c :
  arg !! 1%nat = Some (Ptr (Caller i) o) → reals m !! Caller i = Some c →
  0 ≤ o ≤ Z.of_nat (length c) → Z.of_nat (length c) - o < NP_NAVI_TEST →
  copy_args_into_up_space arg m = None.
Proof.
  intros Harg Hc Ho Hshort. unfold copy_args_into_up_space.
  match goal with |- (?c ≫= _) m = _ =>
    destruct (c m) as [[[] m1]|] eqn:H1;
      [rewrite (bind_Some _ _ _ _ _ H1)|by rewrite (bind_None _ _ _ H1)] end.
  eapply (for_lt_copy_short arg 1 (NU_NAVI_TEST + NXI_NAVI_TEST) _
            (Caller i) o c); [done|done|done|lia| |lia].
  by rewrite (for_lt_copy_frame arg 0 0 _ m m1 _ _ ltac:(done) H1) by done.
Qed.

(** ** What a copy routine can change *)

Lemma only_uxip_refl m : only_uxip m m.
Proof. by repeat split. Qed.

Lemma only_uxip_trans m1 m2 m3 :
  only_uxip m1 m2 → only_uxip m2 m3 → only_uxip m1 m3.
Proof.
  intros (A1 & B1 & C1 & D1) (A2 & B2 & C2 & D2). repeat split.
  - by rewrite A2.
  - by rewrite B2.
  - intros b Hb. by rewrite C2, C1.
  - by rewrite D2.
Qed.

Lemma only_uxip_copy_step (arg : list ptr) (k : nat) (dst : Z → Z) i m m' :
  (a ← deref arg k; x ← load_real (a +ₚ i);
   store_real (Ptr Uxip (dst i)) x) m = Some (tt, m') →
  only_uxip m m'.
Proof.
  unfold mbind, M_bind, deref. destruct (arg !! k) as [a|]; [|done].
  destruct (load_real (a +ₚ i) m) as [[x m1]|] eqn:Hl; [|done].
  assert (m1 = m) as ->.
  { unfold load_real in Hl. destruct (a +ₚ i) as [|b' o']; [done|].
    case_bool_decide; [|done]. destruct (reals m !! b') as [c|]; [|done].
    destruct (c !! Z.to_nat o'); [|done]. by injection Hl as _ ->. }
  unfold store_real. destruct (reals m !! Uxip) as [c|] eqn:Hc; [|done].
  case_bool_decide; [|done]. intros [= <-]. repeat split; simpl.
  - intros b Hb. by rewrite lookup_insert_ne.
  - rewrite lookup_insert_eq, Hc. simpl. by rewrite length_insert.
Qed.

Lemma only_uxip_for_from (arg : list ptr) (k : nat) (dst : Z → Z) n :
  ∀ i m m',
    for_from n i (λ i, a ← deref arg k; x ← load_real (a +ₚ i);
                       store_real (Ptr Uxip (dst i)) x) m = Some (tt, m') →
    only_uxip m m'.
Proof.
  induction n as [|n IH]; intros i m m'; cbn [for_from].
  - intros [= <-]. apply only_uxip_refl.
  - destruct ((a ← deref arg k; x ← load_real (a +ₚ i);
               store_real (Ptr Uxip (dst i)) x) m) as [[[] m1]|] eqn:Hs.
    + rewrite (bind_Some _ _ _ _ _ Hs). intros Hrest.
      eapply only_uxip_trans; [by eapply only_uxip_copy_step|by eapply IH].
    + by rewrite (bind_None _ _ _ Hs).
Qed.

Lemma only_uxip_for_lt (arg : list ptr) (k : nat) (dst : Z → Z) N m m' :
  for_lt N (λ i, a ← deref arg k; x ← load_real (a +ₚ i);
                 store_real (Ptr Uxip (dst i)) x) m = Some (tt, m') →
  only_uxip m m'.
Proof.
  with_strategy transparent [for_lt] (unfold for_lt).
  apply only_uxip_for_from.
Qed.

Lemma only_uxip_bind (c1 c2 : M unit) m m' :
  (∀ m0 m1, c1 m0 = Some (tt, m1) → only_uxip m0 m1) →
  (∀ m0 m1, c2 m0 = Some (tt, m1) → only_uxip m0 m1) →
  (c1 ≫= λ _, c2) m = Some (tt, m') → only_uxip m m'.
Proof.
  intros H1 H2. destruct (c1 m) as [[[] m1]|] eqn:E1.
  - rewrite (bind_Some _ _ _ _ _ E1). intros E2.
    eapply only_uxip_trans; [by apply H1|by apply H2].
  - by rewrite (bind_None _ _ _ E1).
Qed.

Lemma only_uxip_copy_args_into_uxip_space arg m m' :
  copy_args_into_uxip_space arg m = Some (tt, m') → only_uxip m m'.
Proof.
  unfold copy_args_into_uxip_space.
  apply only_uxip_bind.
  { intros m0 m1. apply (only_uxip_for_lt arg 0 (λ i, 0 + i)). }
  intros m0 m1. apply only_uxip_bind.
  { intros m2 m3. apply (only_uxip_for_lt arg 1 (λ i, 0 + (NU_NAVI_TEST + i))). }
  intros m2 m3.
  apply (only_uxip_for_lt arg 2
           (λ i, 0 + (NU_NAVI_TEST + NXI_NAVI_TEST + i))).
Qed.

Lemma only_uxip_copy_args_into_up_space arg m m' :
  copy_args_into_up_space arg m = Some (tt, m') → only_uxip m m'.
Proof.
  unfold copy_args_into_up_space.
  apply only_uxip_bind.
  { intros m0 m1. apply (only_uxip_for_lt arg 0 (λ i, 0 + i)). }
  intros m0 m1.
  apply (only_uxip_for_lt arg 1
           (λ i, 0 + (NU_NAVI_TEST + NXI_NAVI_TEST + i))).
Qed.

Lemma only_uxip_same_shape m m' : only_uxip m m' → same_shape m m'.
Proof.
  intros (A & B & C & D). repeat split.
  - intros b _. destruct (decide (b = Uxip)) as [->|Hb]; [done|].
    by rewrite C.
  - intros b. by rewrite A.
  - intros b. by rewrite B.
Qed.

(** ** Computations with their effects listed *)

Lemma tbind_Some_inv {A B} (c : T A) (f : A → T B) m y m2 t :
  (c ≫= f) m = Some (y, m2, t) →
  ∃ x m1 t1 t2,
    c m = Some (x, m1, t1) ∧ f x m1 = Some (y, m2, t2) ∧ t = t1 ++ t2.
Proof.
  unfold mbind, T_bind. destruct (c m) as [[[x m1] t1]|]; [|done].
  destruct (f x m1) as [[[y' m2'] t2]|] eqn:E; [|done].
  intros [= -> -> <-]. by exists x, m1, t1, t2.
Qed.

Lemma lift_Some_inv {A} (c : M A) m x m' t :
  lift c m = Some (x, m', t) → c m = Some (x, m') ∧ t = [].
Proof.
  unfold lift. destruct (c m) as [[x' m'']|]; [|done]. by intros [= -> -> <-].
Qed.

Lemma erase_bind {A B} (c : T A) (f : A → T B) m :
  erase (c ≫= f) m = (erase c ≫= λ x, erase (f x)) m.
Proof.
  unfold erase, mbind, T_bind, M_bind.
  destruct (c m) as [[[x m1] t1]|]; [|done].
  by destruct (f x m1) as [[[y m2] t2]|].
Qed.

Lemma erase_lift {A} (c : M A) m : erase (lift c) m = c m.
Proof. unfold erase, lift. by destruct (c m) as [[x m']|]. Qed.

Lemma bind_ext {A B} (c c' : M A) (f f' : A → M B) m :
  (∀ m0, c m0 = c' m0) → (∀ x m0, f x m0 = f' x m0) →
  (c ≫= f) m = (c' ≫= f') m.
Proof.
  intros Hc Hf. unfold mbind, M_bind. rewrite Hc.
  destruct (c' m) as [[x m1]|]; [apply Hf|done].
Qed.

Lemma erase_copy_step (arg : list ptr) (k : nat) (p : ptr) i m :
  erase (a ← lift (deref arg k); x ← lift (load_real (a +ₚ i));
         store_real_traced p x) m
  = (a ← deref arg k; x ← load_real (a +ₚ i); store_real p x) m.
Proof.
  rewrite erase_bind. apply bind_ext; [apply erase_lift|]. intros a m0.
  rewrite erase_bind. apply bind_ext; [apply erase_lift|]. intros x m1.
  unfold store_real_traced. rewrite erase_bind.
  unfold mbind, M_bind. rewrite erase_lift.
  by destruct (store_real p x m1) as [[[] m2]|].
Qed.

Lemma erase_for_from_traced n : ∀ i (body : Z → T unit) (body' : Z → M unit) m,
  (∀ j m0, erase (body j) m0 = body' j m0) →
  erase (for_from_traced n i body) m = for_from n i body' m.
Proof.
  induction n as [|n IH]; intros i body body' m Hb; [done|].
  cbn [for_from_traced for_from]. rewrite erase_bind.
  apply bind_ext; [apply Hb|]. intros _ m0. by apply IH.
Qed.

Lemma erase_for_lt_traced N (body : Z → T unit) (body' : Z → M unit) m :
  (∀ j m0, erase (body j) m0 = body' j m0) →
  erase (for_lt_traced N body) m = for_lt N body' m.
Proof.
  intros Hb. with_strategy transparent [for_lt] (unfold for_lt).
  by apply erase_for_from_traced.
Qed.

(** Without their effects listed the traced copy routines are the copy
    routines. *)
Lemma erase_copy_args_into_uxip_space_traced arg m :
  erase (copy_args_into_uxip_space_traced arg) m
  = copy_args_into_uxip_space arg m.
Proof.
  unfold copy_args_into_uxip_space_traced, copy_args_into_uxip_space.
  rewrite erase_bind. apply bind_ext.
  { intros m0. apply erase_for_lt_traced. intros j m1. apply erase_copy_step. }
  intros _ m0. rewrite erase_bind. apply bind_ext.
  { intros m1. apply erase_for_lt_traced. intros j m2. apply erase_copy_step. }
  intros _ m1. apply erase_for_lt_traced. intros j m2. apply erase_copy_step.
Qed.

Lemma erase_copy_args_into_up_space_traced arg m :
  erase (copy_args_into_up_space_traced arg) m
  = copy_args_into_up_space arg m.
Proof.
  unfold copy_args_into_up_space_traced, copy_args_into_up_space.
  rewrite erase_bind. apply bind_ext.
  { intros m0. apply erase_for_lt_traced. intros j m1. apply erase_copy_step. }
  intros _ m0. apply erase_for_lt_traced. intros j m2. apply erase_copy_step.
Qed.

(** The effects of one copy loop that returns: one store per index, in
    increasing order. *)
Lemma copy_step_trace (arg : list ptr) (k : nat) (p : ptr) i m m' t :
  (a ← lift (deref arg k); x ← lift (load_real (a +ₚ i));
   store_real_traced p x) m = Some (tt, m', t) →
  t = [EvWriteReal p].
Proof.
  intros (a & m1 & t1 & t2 & [_ ->]%lift_Some_inv & H2 & ->)%tbind_Some_inv.
  apply tbind_Some_inv in H2
    as (x & m2 & t3 & t4 & [_ ->]%lift_Some_inv & H3 & ->).
  unfold store_real_traced in H3.
  apply tbind_Some_inv in H3
    as ([] & m3 & t5 & t6 & [_ ->]%lift_Some_inv & H4 & ->).
  unfold emit in H4. by injection H4 as _ <-.
Qed.

Lemma for_from_traced_trace (arg : list ptr) (k : nat) (dst : Z → ptr) n :
  ∀ i m m' t,
    for_from_traced n i (λ j,
      a ← lift (deref arg k); x ← lift (load_real (a +ₚ j));
      store_real_traced (dst j) x) m = Some (tt, m', t) →
    t = (λ j, EvWriteReal (dst j)) <$> seqZ i (Z.of_nat n).
Proof.
  induction n as [|n IH]; intros i m m' t; cbn [for_from_traced].
  - by intros [= _ <-].
  - intros ([] & m1 & t1 & t2 & H1 & H2 & ->)%tbind_Some_inv.
    apply copy_step_trace in H1 as ->. apply IH in H2 as ->.
    rewrite (seqZ_cons i (Z.of_nat (S n))) by lia.
    simpl. do 3 f_equal; lia.
Qed.

Lemma for_lt_traced_trace (arg : list ptr) (k : nat) (off N : Z) m m' t :
  0 ≤ N →
  for_lt_traced N (λ j,
    a ← lift (deref arg k); x ← lift (load_real (a +ₚ j));
    store_real_traced (workspace_at (off + j)) x) m = Some (tt, m', t) →
  t = region_writes off N.
Proof.
  intros HN Hrun. unfold for_lt_traced in Hrun.
  apply (for_from_traced_trace arg k (λ j, workspace_at (off + j))) in Hrun.
  rewrite Hrun. unfold region_writes. by rewrite Z2Nat.id.
Qed.

Lemma copy_args_into_uxip_space_traced_trace arg m m' t :
  copy_args_into_uxip_space_traced arg m = Some (tt, m', t) →
  t = copy_writes Cost.
Proof.
  unfold copy_args_into_uxip_space_traced.
  intros ([] & m1 & t1 & t2 & H1 & H2 & ->)%tbind_Some_inv.
  apply tbind_Some_inv in H2 as ([] & m2 & t3 & t4 & H2 & H3 & ->).
  apply (for_lt_traced_trace arg 0 0) in H1 as ->; [|done].
  apply (for_lt_traced_trace arg 1 NU_NAVI_TEST) in H2 as ->; [|done].
  by apply (for_lt_traced_trace arg 2 (NU_NAVI_TEST + NXI_NAVI_TEST))
    in H3 as ->.
Qed.

Lemma copy_args_into_up_space_traced_trace arg m m' t :
  copy_args_into_up_space_traced arg m = Some (tt, m', t) →
  t = copy_writes MapF1.
Proof.
  unfold copy_args_into_up_space_traced.
  intros ([] & m1 & t1 & t2 & H1 & H2 & ->)%tbind_Some_inv.
  apply (for_lt_traced_trace arg 0 0) in H1 as ->; [|done].
  by apply (for_lt_traced_trace arg 1 (NU_NAVI_TEST + NXI_NAVI_TEST))
    in H2 as ->.
Qed.

#[global] Opaque for_lt_traced.

(** ** The dispatch functions with their effects listed *)

Lemma erase_array_init_traced size init m :
  erase (array_init_traced size init) m = Some (array_init size init, m).
Proof. done. Qed.

Lemma erase_store_ptr_traced p v m :
  erase (store_ptr_traced p v) m = store_ptr p v m.
Proof.
  unfold store_ptr_traced. rewrite erase_bind.
  unfold mbind, M_bind. rewrite erase_lift.
  by destruct (store_ptr p v m) as [[[] m1]|].
Qed.

Lemma erase_call_traced k (f : casadi_fn) a r iw w h m :
  erase (call_traced k f a r iw w h) m = f a r iw w h m.
Proof.
  unfold call_traced. rewrite erase_bind.
  rewrite bind_Some with (x := tt) (m' := m) by done. apply erase_lift.
Qed.

Section TracedDispatch.
Context `{casadi_memory_h} `{casadi_kernels}.

(** Without its effects listed a traced dispatch function is the dispatch
    function. *)
Lemma erase_dispatch_traced k arg res m :
  erase (dispatch_traced k arg res) m = dispatch k arg res m.
Proof.
  destruct k; simpl;
    unfold cost_function_navi_test_traced, cost_function_navi_test,
      grad_cost_function_navi_test_traced, grad_cost_function_navi_test,
      mapping_f1_function_navi_test_traced, mapping_f1_function_navi_test,
      mapping_f2_function_navi_test_traced, mapping_f2_function_navi_test;
    rewrite erase_bind;
    rewrite (bind_Some _ _ _ _ _ (erase_array_init_traced _ _ m));
    rewrite erase_bind;
    (apply bind_ext;
      [first [apply erase_copy_args_into_uxip_space_traced
             |apply erase_copy_args_into_up_space_traced]|]);
    intros _ m1; rewrite erase_bind;
    (apply bind_ext; [apply erase_lift|]);
    intros r m2; rewrite erase_bind;
    (apply bind_ext; [apply erase_store_ptr_traced|]);
    intros _ m3; apply erase_call_traced.
Qed.

Lemma pack_traced_trace k arg m m' t :
  match k with
  | Cost | Grad => copy_args_into_uxip_space_traced
  | MapF1 | MapF2 => copy_args_into_up_space_traced
  end arg m = Some (tt, m', t) →
  t = copy_writes k.
Proof.
  destruct k; first [apply copy_args_into_uxip_space_traced_trace
                    |apply copy_args_into_up_space_traced_trace].
Qed.

(** Every call that returns has performed its effects in the order of the
    source: the view is initialised, the inputs are copied, the result slot
    is bound, the kernel is called. *)
Lemma dispatch_traced_trace k arg res m c m' t :
  dispatch_traced k arg res m = Some (c, m', t) →
  ∃ r, res !! 0%nat = Some r ∧ t = source_order k r.
Proof.
  destruct k; cbn [dispatch_traced];
    unfold cost_function_navi_test_traced,
      grad_cost_function_navi_test_traced,
      mapping_f1_function_navi_test_traced,
      mapping_f2_function_navi_test_traced,
      array_init_traced, call_traced, store_ptr_traced;
    intros (a & m1 & t1 & t2 & Hinit & Hrest & ->)%tbind_Some_inv;
    apply tbind_Some_inv in Hinit
      as ([] & m0 & t0 & t0' & [= <- <-] & [= <- <- <-] & ->);
    apply tbind_Some_inv in Hrest
      as ([] & m2 & t3 & t4 & Hcopy & Hrest & ->);
    apply tbind_Some_inv in Hrest
      as (r & m3 & t5 & t6 & [Hr ->]%lift_Some_inv & Hrest & ->);
    apply tbind_Some_inv in Hrest
      as ([] & m4 & t7 & t8 & Hbind & Hcall & ->);
    apply tbind_Some_inv in Hbind
      as ([] & m5 & t9 & t10 & [_ ->]%lift_Some_inv & [= <- <-] & ->);
    apply tbind_Some_inv in Hcall
      as ([] & m6 & t11 & t12 & [= <- <-] & [_ ->]%lift_Some_inv & ->);
    exists r;
    (split;
      [unfold deref in Hr; by destruct (res !! 0%nat) as [r'|];
         [injection Hr as -> _|]|]);
    [apply (pack_traced_trace Cost) in Hcopy
    |apply (pack_traced_trace Grad) in Hcopy
    |apply (pack_traced_trace MapF1) in Hcopy
    |apply (pack_traced_trace MapF2) in Hcopy];
    subst t3; unfold source_order; cbn [app]; reflexivity.
Qed.

(** On valid inputs the traced dispatch function is determined: the
    effects in the order of the source, and the outcome of the kernel in the
    memory [at_invoke]. *)
Lemma dispatch_traced_run k arg res m ins r :
  layout_ok m = true → 0 < SZ_RES k →
  caller_inputs k m arg = Some ins → res !! 0%nat = Some r →
  dispatch_traced k arg res m
  = match kernel_of k (argument_view k) (result_space k)
            (allocated_i_workspace k) (allocated_r_workspace k) NULL
            (at_invoke k ins r m) with
    | Some (c, m') => Some (c, m', source_order k r)
    | None => None
    end.
Proof.
  intros Hlay Hk Hin Hr.
  rewrite <- (dispatch_invoke k arg res m ins r) by done.
  rewrite <- erase_dispatch_traced. unfold erase.
  destruct (dispatch_traced k arg res m) as [[[c m'] t]|] eqn:E; [|done].
  apply dispatch_traced_trace in E as (r' & Hr' & ->).
  congruence.
Qed.

(** A dispatch function has the outcome of the five transitions of the
    specification, where the inputs are copied before the view is
    constructed. *)
Lemma dispatch_run_call k arg res m :
  dispatch k arg res m = run_call k arg res m.
Proof.
  rewrite dispatch_unfold. unfold run_call, steps, step. simpl.
  unfold mbind at 1, M_bind at 1.
  destruct (pack k arg m) as [[[] m1]|]; [|done]. simpl.
  unfold mbind at 1, M_bind at 1.
  destruct ((deref res 0 ≫= λ r, store_ptr (result_space k +ₚ 0) r) m1)
    as [[[] m2]|]; [|done]. simpl.
  by destruct (kernel_of k _ _ _ _ _ m2) as [[c m3]|].
Qed.

(** What the result slot was bound to before a call does not change the
    call. *)
Lemma dispatch_rebinds_result_slot k arg res m q :
  dispatch k arg res (with_result_slot k q m) = dispatch k arg res m.
Proof.
  rewrite !dispatch_unfold.
  unfold with_result_slot.
  unfold mbind at 1 4, M_bind at 1 4.
  rewrite ptrs_blind_pack.
  destruct (pack k arg m) as [[[] m1]|] eqn:Hp; [|done]. simpl.
  apply pack_ptrs in Hp.
  unfold mbind at 1 4, M_bind at 1 4.
  assert (Hslot :
    (deref res 0 ≫= λ r, store_ptr (result_space k +ₚ 0) r)
      (set_ptrs (alter (<[0%nat := q]>) (ResSlot k) (ptrs m)) m1)
    = (deref res 0 ≫= λ r, store_ptr (result_space k +ₚ 0) r) m1).
  { unfold mbind, M_bind, deref. destruct (res !! 0%nat) as [r|]; [|done].
    assert (result_space k = static_array (SZ_RES k) (ResSlot k)) as ->
      by by destruct k.
    unfold static_array. case_bool_decide; [|done].
    rewrite <- Hp. apply store_ptr_rebinds. }
  by rewrite Hslot.
Qed.
End TracedDispatch.

(** ** What a dispatch function writes before it enters its kernel *)

Lemma only_uxip_pack k arg m m1 :
  pack k arg m = Some (tt, m1) → only_uxip m m1.
Proof.
  destruct k; first [apply only_uxip_copy_args_into_uxip_space
                    |apply only_uxip_copy_args_into_up_space].
Qed.

Section BeforeTheKernel.
Context `{casadi_memory_h}.

(** Binding the result slot of [k] changes that slot and nothing else. *)
Lemma bind_result_frame k r m1 m2 :
  store_ptr (result_space k +ₚ 0) r m1 = Some (tt, m2) →
  reals m2 = reals m1 ∧ ints m2 = ints m1
  ∧ ∀ b, b ≠ ResSlot k → ptrs m2 !! b = ptrs m1 !! b.
Proof.
  assert (result_space k = static_array (SZ_RES k) (ResSlot k)) as ->
    by by destruct k.
  unfold static_array. case_bool_decide; [|done]. simpl.
  destruct (ptrs m1 !! ResSlot k) as [c|]; [|done].
  case_bool_decide; [|done]. intros [= <-]. simpl.
  repeat split. intros b Hb. by rewrite lookup_insert_ne.
Qed.

(** Whatever the arguments and the memory, a call either goes wrong before
    any kernel is entered, or it enters its kernel in a memory that differs
    from the caller's at most in the packed workspace and in the result
    slot. *)
Lemma dispatch_enters_kernel k arg res m :
  (∀ K : casadi_kernels, @dispatch _ K k arg res m = None)
  ∨ ∃ m0,
      ints m0 = ints m
      ∧ (∀ b, b ≠ Uxip → reals m0 !! b = reals m !! b)
      ∧ (∀ b, b ≠ ResSlot k → ptrs m0 !! b = ptrs m !! b)
      ∧ ∀ K : casadi_kernels,
          @dispatch _ K k arg res m
          = @kernel_of K k (argument_view k) (result_space k)
              (allocated_i_workspace k) (allocated_r_workspace k) NULL m0.
Proof.
  destruct (pack k arg m) as [[[] m1]|] eqn:Hp.
  2:{ left. intros K. rewrite dispatch_unfold. by apply bind_None. }
  destruct ((r ← deref res 0; store_ptr (result_space k +ₚ 0) r) m1)
    as [[[] m2]|] eqn:Hb.
  2:{ left. intros K. rewrite dispatch_unfold.
      rewrite (bind_Some _ _ _ _ _ Hp). by apply bind_None. }
  right. exists m2.
  apply only_uxip_pack in Hp as Hframe.
  destruct Hframe as (Hints & Hptrs & Hreals & _).
  assert (∃ r, store_ptr (result_space k +ₚ 0) r m1 = Some (tt, m2))
    as [r Hs].
  { unfold mbind, M_bind, deref in Hb.
    destruct (res !! 0%nat) as [r|]; [by exists r|done]. }
  apply bind_result_frame in Hs as (Hr2 & Hi2 & Hp2).
  split; [congruence|]. split; [intros b Hne; rewrite Hr2; by apply Hreals|].
  split; [intros b Hne; rewrite Hp2 by done; by rewrite Hptrs|].
  intros K. rewrite dispatch_unfold.
  rewrite (bind_Some _ _ _ _ _ Hp). by rewrite (bind_Some _ _ _ _ _ Hb).
Qed.
End BeforeTheKernel.

(** * The dispatch layer against its specification *)

(** C1. For all vectors [u], [xi] and [p] of lengths [Nu = 40], [Nxi = 41]
    and [Np = 2673] passed as [{u, xi, p}], [copy_args_into_uxip_space]
    returns with the slice [[0, Nu)] of the packed workspace equal to [u],
    the slice [[Nu, Nu + Nxi)] equal to [xi] and the slice
    [[Nu + Nxi, Nu + Nxi + Np)] equal to [p], element by element; the three
    slices are the whole workspace, and nothing else in memory is written. *)
Theorem copy_args_into_uxip_space_packs
    (m : mem) (arg : list ptr) (u xi p w : list casadi_real) :
  input_vec m arg 0 NU_NAVI_TEST = Some u →
  input_vec m arg 1 NXI_NAVI_TEST = Some xi →
  input_vec m arg 2 NP_NAVI_TEST = Some p →
  reals m !! Uxip = Some w →
  Z.of_nat (length w) = sizeof_uxip_space →
  ∃ w',
    copy_args_into_uxip_space arg m = Some (tt, with_uxip w' m)
    ∧ slice w' 0 NU_NAVI_TEST = u
    ∧ slice w' NU_NAVI_TEST NXI_NAVI_TEST = xi
    ∧ slice w' (NU_NAVI_TEST + NXI_NAVI_TEST) NP_NAVI_TEST = p
    ∧ w' = u ++ xi ++ p
    ∧ length w' = length w.
Proof.
  intros Hu Hxi Hp Hw Hlen. exists (u ++ xi ++ p).
  pose proof (input_vec_length _ _ _ _ _ Hu) as Lu.
  pose proof (input_vec_length _ _ _ _ _ Hxi) as Lxi.
  pose proof (input_vec_length _ _ _ _ _ Hp) as Lp.
  split; [by eapply copy_args_into_uxip_space_run|].
  split; [by apply slice_app_l|].
  split; [rewrite slice_app_r by done; by apply slice_app_l|].
  split.
  { rewrite (assoc_L (++) u xi), slice_app_r by (rewrite length_app; lia).
    by apply slice_all. }
  split; [done|].
  rewrite !length_app. dims.
Qed.

Lemma copy_args_into_uxip_space_packs_witness :
  ∃ w',
    copy_args_into_uxip_space example_arg example_mem
    = Some (tt, with_uxip w' example_mem)
    ∧ slice w' 0 NU_NAVI_TEST = example_u
    ∧ slice w' NU_NAVI_TEST NXI_NAVI_TEST = example_xi
    ∧ slice w' (NU_NAVI_TEST + NXI_NAVI_TEST) NP_NAVI_TEST = example_p
    ∧ w' = example_u ++ example_xi ++ example_p
    ∧ length w' = length (replicate 2754 0%float).
Proof.
  apply (copy_args_into_uxip_space_packs example_mem example_arg
           example_u example_xi example_p (replicate 2754 0%float));
    (vm_compute; reflexivity).
Defined.

(** C2. For all [u] and [p] of lengths [Nu] and [Np] passed as [{u, p}] and
    every prior content [w] of the packed workspace,
    [copy_args_into_up_space] returns with [u] in [[0, Nu)] and [p] in
    [[Nu + Nxi, Nu + Nxi + Np)], and every element of the [xi] region
    [[Nu, Nu + Nxi)] is the one [w] held before the call. *)
Theorem copy_args_into_up_space_keeps_xi
    (m : mem) (arg : list ptr) (u p w : list casadi_real) :
  input_vec m arg 0 NU_NAVI_TEST = Some u →
  input_vec m arg 1 NP_NAVI_TEST = Some p →
  reals m !! Uxip = Some w →
  Z.of_nat (length w) = sizeof_uxip_space →
  ∃ w',
    copy_args_into_up_space arg m = Some (tt, with_uxip w' m)
    ∧ slice w' 0 NU_NAVI_TEST = u
    ∧ slice w' (NU_NAVI_TEST + NXI_NAVI_TEST) NP_NAVI_TEST = p
    ∧ slice w' NU_NAVI_TEST NXI_NAVI_TEST = slice w NU_NAVI_TEST NXI_NAVI_TEST
    ∧ (∀ i : nat, NU_NAVI_TEST ≤ Z.of_nat i < NU_NAVI_TEST + NXI_NAVI_TEST →
                  w' !! i = w !! i)
    ∧ length w' = length w.
Proof.
  intros Hu Hp Hw Hlen.
  exists (u ++ slice w NU_NAVI_TEST NXI_NAVI_TEST ++ p).
  pose proof (input_vec_length _ _ _ _ _ Hu) as Lu.
  pose proof (input_vec_length _ _ _ _ _ Hp) as Lp.
  assert (Ls : Z.of_nat (length (slice w NU_NAVI_TEST NXI_NAVI_TEST))
               = NXI_NAVI_TEST) by (rewrite slice_length; dims).
  split; [by eapply copy_args_into_up_space_run|].
  split; [by apply slice_app_l|].
  split.
  { rewrite (assoc_L (++) u), slice_app_r by (rewrite length_app; lia).
    by apply slice_all. }
  split; [rewrite slice_app_r by done; by apply slice_app_l|].
  split.
  - intros i Hi.
    rewrite lookup_app_r by lia.
    rewrite lookup_app_l by lia.
    rewrite slice_lookup by dims. f_equal. lia.
  - rewrite !length_app. dims.
Qed.

Lemma copy_args_into_up_space_keeps_xi_witness :
  ∃ w',
    copy_args_into_up_space example_arg_up
      (with_uxip (replicate 40 0%float ++ example_xi ++ replicate 2673 0%float)
         example_mem)
    = Some (tt, with_uxip w' example_mem)
    ∧ slice w' 0 NU_NAVI_TEST = example_u
    ∧ slice w' (NU_NAVI_TEST + NXI_NAVI_TEST) NP_NAVI_TEST = example_p
    ∧ slice w' NU_NAVI_TEST NXI_NAVI_TEST = example_xi.
Proof.
  destruct (copy_args_into_up_space_keeps_xi
              (with_uxip (replicate 40 0%float ++ example_xi
                          ++ replicate 2673 0%float) example_mem)
              example_arg_up example_u example_p
              (replicate 40 0%float ++ example_xi ++ replicate 2673 0%float)
              ltac:(vm_compute; reflexivity) ltac:(vm_compute; reflexivity)
              ltac:(vm_compute; reflexivity) ltac:(vm_compute; reflexivity))
    as (w' & Hrun & Hu & Hp & Hxi & _).
  exists w'. rewrite with_uxip_twice in Hrun.
  exact (conj Hrun (conj Hu (conj Hp Hxi))).
Defined.

Section AnyKernel.
Context `{casadi_memory_h} `{casadi_kernels}.

(** C3. Whatever the kernels are, on every valid input each of the four
    dispatch functions returns exactly what the one invocation of its kernel
    returns: the status [c] (zero or not) and the memory the kernel left,
    with no interpretation, translation or retry. *)
Theorem dispatch_returns_kernel_status
    (k : kernel_id) (arg res : list ptr) (m : mem)
    (ins : list (list casadi_real)) (r : ptr) :
  layout_ok m = true → 0 < SZ_RES k →
  caller_inputs k m arg = Some ins → res !! 0%nat = Some r →
  ∀ (c : Z) (m' : mem),
    kernel_of k (argument_view k) (result_space k)
      (allocated_i_workspace k) (allocated_r_workspace k) NULL
      (at_invoke k ins r m) = Some (c, m')
    ↔ dispatch k arg res m = Some (c, m').
Proof.
  intros Hlay Hres Hin Hr c m'.
  by rewrite (dispatch_invoke k arg res m ins r).
Qed.

(** C5. On every call the argument array passed to the kernel holds base
    pointers at fixed offsets of the packed workspace: [uxip_space + 0],
    [uxip_space + Nu], [uxip_space + Nu + Nxi] for the cost and the gradient,
    [uxip_space + 0], [uxip_space + Nu + Nxi] for the two mappings, in that
    order; entries the array is declared with beyond these are null, and
    there are none when the declared size is the number of arguments. *)
Theorem argument_view_passed
    (k : kernel_id) (arg res : list ptr) (m : mem)
    (ins : list (list casadi_real)) (r : ptr) :
  layout_ok m = true → 0 < SZ_RES k → n_in k ≤ SZ_ARG k →
  caller_inputs k m arg = Some ins → res !! 0%nat = Some r →
  dispatch k arg res m
  = kernel_of k
      (claimed_view k ++ replicate (Z.to_nat (SZ_ARG k - n_in k)) NULL)
      (result_space k) (allocated_i_workspace k) (allocated_r_workspace k)
      NULL (at_invoke k ins r m)
  ∧ (SZ_ARG k = n_in k →
     dispatch k arg res m
     = kernel_of k (claimed_view k) (result_space k)
         (allocated_i_workspace k) (allocated_r_workspace k) NULL
         (at_invoke k ins r m))
  ∧ claimed_view k
    = match k with
      | Cost | Grad => [Ptr Uxip 0; Ptr Uxip 40; Ptr Uxip 81]
      | MapF1 | MapF2 => [Ptr Uxip 0; Ptr Uxip 81]
      end.
Proof.
  intros Hlay Hres Hn Hin Hr.
  rewrite (dispatch_invoke k arg res m ins r) by done.
  assert (Hview : argument_view k
      = claimed_view k ++ replicate (Z.to_nat (SZ_ARG k - n_in k)) NULL).
  { unfold argument_view, array_init.
    rewrite resize_ge by (unfold n_in in Hn; destruct k; simpl in *; lia).
    assert (region_bases k = claimed_view k) as -> by by destruct k.
    replace (Z.to_nat (SZ_ARG k) - length (claimed_view k))%nat
      with (Z.to_nat (SZ_ARG k - n_in k)); [done|].
    unfold n_in in *. destruct k; simpl in *; lia. }
  split; [by rewrite Hview|]. split; [|by destruct k].
  intros Heq. rewrite Hview, Heq, Z.sub_diag. simpl. by rewrite app_nil_r.
Qed.
End AnyKernel.

Lemma dispatch_returns_kernel_status_witness :
  @dispatch example_sizes (status_kernels 0 0 0 7) MapF2
    example_arg_up [Ptr (Caller 3) 0] example_mem
  = Some (7, at_invoke MapF2 [example_u; example_p] (Ptr (Caller 3) 0)
               example_mem).
Proof.
  exact (proj1 (@dispatch_returns_kernel_status example_sizes
           (status_kernels 0 0 0 7) MapF2 example_arg_up [Ptr (Caller 3) 0]
           example_mem [example_u; example_p] (Ptr (Caller 3) 0)
           ltac:(vm_compute; reflexivity) ltac:(vm_compute; reflexivity)
           ltac:(vm_compute; reflexivity) ltac:(vm_compute; reflexivity)
           7 (at_invoke MapF2 [example_u; example_p] (Ptr (Caller 3) 0)
                example_mem))
         eq_refl).
Defined.

Lemma argument_view_passed_witness :
  @dispatch example_sizes (status_kernels 0 0 0 0) Cost
    example_arg [Ptr (Caller 3) 0] example_mem
  = status_kernel 0 [Ptr Uxip 0; Ptr Uxip 40; Ptr Uxip 81]
      (@result_space example_sizes Cost)
      (@allocated_i_workspace example_sizes Cost)
      (@allocated_r_workspace example_sizes Cost) NULL
      (at_invoke Cost example_ins_full (Ptr (Caller 3) 0) example_mem).
Proof.
  apply (@argument_view_passed example_sizes
           (status_kernels 0 0 0 0) Cost example_arg [Ptr (Caller 3) 0]
           example_mem example_ins_full (Ptr (Caller 3) 0)
           ltac:(vm_compute; reflexivity) ltac:(vm_compute; reflexivity)
           ltac:(vm_compute; discriminate) ltac:(vm_compute; reflexivity)
           ltac:(vm_compute; reflexivity)).
  reflexivity.
Defined.

Section StateMachine.
Context `{casadi_memory_h} `{casadi_kernels}.

(** C6 (amended). Each of the four dispatch functions performs its steps in
    the order of the source: it constructs the argument view of base
    pointers, copies the caller's input vectors into the packed workspace
    (the full copy for the cost and the gradient, the reduced copy for the
    two mappings), binds entry 0 of the result slot to the caller's output
    pointer (the pointer is stored, nothing is copied), invokes the kernel
    and returns its status.  The view is constructed before the inputs are
    copied, not after; the outcome of a call is nevertheless that of the
    order copy, view, bind, invoke, return.  In detail:
    - the dispatch function with its effects listed is the dispatch
      function;
    - every call that returns has listed exactly the view, the stores of
      its copy routine in increasing order of address, the binding of the
      result slot to [res[0]] and the call of its kernel on the view, the
      result slot and the two scratch arenas, in this order;
    - on valid inputs the call does list these effects whenever its kernel
      returns, the kernel is entered in the memory [at_invoke], where the
      workspace holds the packed inputs, and the status returned is the
      kernel's;
    - the call has the outcome of the five transitions of the
      specification;
    - what the result slot was bound to before a call does not change the
      call. *)
Theorem dispatch_steps_in_source_order
    (k : kernel_id) (arg res : list ptr) (m : mem) :
  erase (dispatch_traced k arg res) m = dispatch k arg res m
  ∧ (∀ c m' t,
       dispatch_traced k arg res m = Some (c, m', t) →
       ∃ r, res !! 0%nat = Some r ∧ t = source_order k r)
  ∧ (∀ ins r,
       layout_ok m = true → 0 < SZ_RES k →
       caller_inputs k m arg = Some ins → res !! 0%nat = Some r →
       dispatch_traced k arg res m
       = match kernel_of k (argument_view k) (result_space k)
                 (allocated_i_workspace k) (allocated_r_workspace k) NULL
                 (at_invoke k ins r m) with
         | Some (c, m') => Some (c, m', source_order k r)
         | None => None
         end)
  ∧ dispatch k arg res m = run_call k arg res m
  ∧ ∀ q : ptr,
      dispatch k arg res (with_result_slot k q m) = dispatch k arg res m.
Proof.
  split; [apply erase_dispatch_traced|].
  split; [intros c m' t; apply dispatch_traced_trace|].
  split; [intros ins r; apply dispatch_traced_run|].
  split; [apply dispatch_run_call|].
  intros q. apply dispatch_rebinds_result_slot.
Qed.
End StateMachine.

Lemma dispatch_steps_in_source_order_witness :
  @dispatch_traced example_sizes (status_kernels 7 0 0 0) Cost
    example_arg [Ptr (Caller 3) 0] example_mem
  = Some (7,
          at_invoke Cost example_ins_full (Ptr (Caller 3) 0) example_mem,
          @source_order example_sizes Cost (Ptr (Caller 3) 0)).
Proof.
  exact (proj1 (proj2 (proj2
           (@dispatch_steps_in_source_order example_sizes
              (status_kernels 7 0 0 0) Cost example_arg [Ptr (Caller 3) 0]
              example_mem)))
           example_ins_full (Ptr (Caller 3) 0)
           ltac:(vm_compute; reflexivity) ltac:(vm_compute; reflexivity)
           ltac:(vm_compute; reflexivity) ltac:(vm_compute; reflexivity)).
Defined.

(** C6 as stated fails: the order is not copy, view, bind, invoke.  In a
    call of the cost function the first effect is the initialisation of the
    argument view and the first store of the copy routine comes second. *)
Lemma view_constructed_before_copy :
  ∃ c m' t,
    @dispatch_traced example_sizes (status_kernels 7 0 0 0) Cost
      example_arg [Ptr (Caller 3) 0] example_mem = Some (c, m', t)
    ∧ t !! 0%nat = Some (EvInit [Ptr Uxip 0; Ptr Uxip 40; Ptr Uxip 81])
    ∧ t !! 1%nat = Some (EvWriteReal (Ptr Uxip 0))
    ∧ @copy_first_order example_sizes Cost (Ptr (Caller 3) 0) !! 0%nat
      = Some (EvWriteReal (Ptr Uxip 0))
    ∧ t ≠ @copy_first_order example_sizes Cost (Ptr (Caller 3) 0).
Proof.
  exists 7, (at_invoke Cost example_ins_full (Ptr (Caller 3) 0) example_mem),
    (@source_order example_sizes Cost (Ptr (Caller 3) 0)).
  split.
  { rewrite (@dispatch_traced_run example_sizes (status_kernels 7 0 0 0)
               Cost example_arg [Ptr (Caller 3) 0] example_mem
               example_ins_full (Ptr (Caller 3) 0)
               ltac:(vm_compute; reflexivity) ltac:(vm_compute; reflexivity)
               ltac:(vm_compute; reflexivity) ltac:(vm_compute; reflexivity)).
    reflexivity. }
  split; [vm_compute; reflexivity|].
  split; [vm_compute; reflexivity|].
  split; [vm_compute; reflexivity|].
  intros E. apply (f_equal (λ l : list event, l !! 0%nat)) in E.
  vm_compute in E. discriminate E.
Qed.

Section Sizes.
Context `{casadi_memory_h}.

(** C7. The packed workspace is sized to the reserved parameter count, not
    to the declared one: [NP_NAVI_TEST] is 2673 while the header declares
    2658 parameters, and [uxip_space] has [NU + NXI + NP = 40 + 41 + 2673 =
    2754] elements.  Both copy routines copy all 2673 elements of the
    caller's [p]: they fill the [p] region with them, and they read outside
    a [p] buffer that holds fewer. *)
Theorem workspace_sized_for_reserved_parameters
    (m : mem) (arg arg' : list ptr) (u xi p : list casadi_real) :
  layout_ok m = true →
  input_vec m arg 0 NU_NAVI_TEST = Some u →
  input_vec m arg 1 NXI_NAVI_TEST = Some xi →
  input_vec m arg 2 NP_NAVI_TEST = Some p →
  input_vec m arg' 0 NU_NAVI_TEST = Some u →
  input_vec m arg' 1 NP_NAVI_TEST = Some p →
  NP_NAVI_TEST = 2673 ∧ metadata_parameters = 2658
  ∧ metadata_parameters < NP_NAVI_TEST
  ∧ sizeof_uxip_space = NU_NAVI_TEST + NXI_NAVI_TEST + NP_NAVI_TEST
  ∧ sizeof_uxip_space = 2754
  ∧ Z.of_nat (length (uxip_contents m)) = 2754
  ∧ (∀ heap, Z.of_nat (length (uxip_contents (static_init heap))) = 2754)
  ∧ Z.of_nat (length p) = 2673
  ∧ (∃ m1, copy_args_into_uxip_space arg m = Some (tt, m1)
           ∧ slice (uxip_contents m1)
               (NU_NAVI_TEST + NXI_NAVI_TEST) NP_NAVI_TEST = p)
  ∧ (∃ m2, copy_args_into_up_space arg' m = Some (tt, m2)
           ∧ slice (uxip_contents m2)
               (NU_NAVI_TEST + NXI_NAVI_TEST) NP_NAVI_TEST = p)
  ∧ (∀ (m0 : mem) (a : list ptr) (i : nat) (o : Z) (c : list casadi_real),
       reals m0 !! Caller i = Some c →
       0 ≤ o ≤ Z.of_nat (length c) →
       Z.of_nat (length c) - o < NP_NAVI_TEST →
       (a !! 2%nat = Some (Ptr (Caller i) o) →
        copy_args_into_uxip_space a m0 = None)
       ∧ (a !! 1%nat = Some (Ptr (Caller i) o) →
          copy_args_into_up_space a m0 = None)).
Proof.
  intros Hlay Hu Hxi Hp Hu' Hp'.
  destruct (layout_ok_uxip m Hlay) as (w & Hw & Hlen).
  pose proof (input_vec_length _ _ _ _ _ Hu) as Lu.
  pose proof (input_vec_length _ _ _ _ _ Hxi) as Lxi.
  pose proof (input_vec_length _ _ _ _ _ Hp) as Lp.
  do 5 (split; [done|]).
  split; [unfold uxip_contents; by rewrite Hw|].
  split.
  { intros heap. unfold uxip_contents, static_init. cbn [reals].
    rewrite lookup_insert_eq. cbn [default from_option id].
    rewrite length_replicate. reflexivity. }
  split; [done|].
  split.
  { eexists. split; [by eapply copy_args_into_uxip_space_run|].
    unfold uxip_contents. rewrite reals_with_uxip. simpl.
    rewrite (assoc_L (++) u xi), slice_app_r by (rewrite length_app; lia).
    by apply slice_all. }
  split.
  { eexists. split; [by eapply copy_args_into_up_space_run|].
    unfold uxip_contents. rewrite reals_with_uxip. simpl.
    rewrite (assoc_L (++) u), slice_app_r
      by (rewrite length_app, slice_length; dims).
    by apply slice_all. }
  intros m0 a i o c Hc Ho Hshort. split; intros Ha.
  - by eapply copy_args_into_uxip_space_short.
  - by eapply copy_args_into_up_space_short.
Qed.
End Sizes.

Section ModelledKernels.
Context `{casadi_memory_h}.
Variable km : kernel_id → kernel_model.

(** C4. For every valid [(u, p)], a call of [mapping_f1_function_navi_test]
    or [mapping_f2_function_navi_test] returns the same status and leaves
    the same values in the caller's output buffer (and in all of the
    caller's memory) whatever the [xi] region [[Nu, Nu + Nxi)] of the packed
    workspace held before: a run on the memory [m] and a run on [m] with its
    [xi] region overwritten by arbitrary values [q] agree. *)
Theorem mapping_independent_of_xi_region
    (k : kernel_id) (arg res : list ptr) (m : mem)
    (ins : list (list casadi_real)) (r : ptr) (old q : list casadi_real) :
  k = MapF1 ∨ k = MapF2 →
  layout_ok m = true → 0 < SZ_RES k → n_in k ≤ SZ_ARG k →
  caller_inputs k m arg = Some ins →
  res !! 0%nat = Some r → caller_owned r = true →
  read_vec m r (Z.of_nat (length (snd (k_value (km k) ins)))) = Some old →
  Z.of_nat (length q) = NXI_NAVI_TEST →
  ∃ c m1 m2,
    dispatch_modelled km k arg res m = Some (c, m1)
    ∧ dispatch_modelled km k arg res (poison_xi q m) = Some (c, m2)
    ∧ slice (uxip_contents (poison_xi q m)) NU_NAVI_TEST NXI_NAVI_TEST = q
    ∧ (∀ i, reals m2 !! Caller i = reals m1 !! Caller i)
    ∧ read_vec m1 r (Z.of_nat (length (snd (k_value (km k) ins))))
      = Some (snd (k_value (km k) ins))
    ∧ read_vec m2 r (Z.of_nat (length (snd (k_value (km k) ins))))
      = Some (snd (k_value (km k) ins)).
Proof.
  intros Hk Hlay Hres Harg Hin Hr Hown Hroom Hq.
  destruct (layout_ok_uxip m Hlay) as (w & Hw & Hlen).
  assert (Hheap : ∀ i, reals (poison_xi q m) !! Caller i = reals m !! Caller i).
  { intros i. unfold poison_xi, with_uxip, set_real. simpl.
    by rewrite lookup_insert_ne. }
  assert (Hlay' : layout_ok (poison_xi q m) = true).
  { rewrite <- Hlay. apply layout_ok_shape.
    apply (same_shape_with_uxip w); [done|].
    unfold uxip_contents. rewrite Hw. simpl.
    rewrite !length_app, length_take, length_drop. dims. }
  exists (fst (k_value (km k) ins)), (after_call km k ins r m),
    (after_call km k ins r (poison_xi q m)).
  split; [by eapply dispatch_modelled_run|].
  split.
  { eapply dispatch_modelled_run; try done.
    - by rewrite (caller_inputs_ext k m (poison_xi q m) arg Hheap).
    - by rewrite (read_vec_caller m (poison_xi q m) r _ Hown Hheap). }
  split.
  { unfold poison_xi, uxip_contents at 1.
    rewrite reals_with_uxip. simpl. unfold uxip_contents. rewrite Hw. simpl.
    rewrite slice_app_r by (rewrite length_take; dims).
    by apply slice_app_l. }
  split.
  { intros i. rewrite !caller_heap_after_call by done.
    by apply reals_write_vec_caller. }
  split.
  - rewrite read_vec_after_call by done. by eapply read_vec_write_vec.
  - rewrite read_vec_after_call by done. eapply read_vec_write_vec.
    by rewrite (read_vec_caller m (poison_xi q m) r _ Hown Hheap).
Qed.

(** C8. Calling the same dispatch function twice in succession on the same
    input vectors, with output buffers that do not overlap, returns the same
    status twice and leaves the same output in both buffers; the dispatch
    layer adds no state that changes the result of the second call. *)
Theorem dispatch_twice_same_result
    (k : kernel_id) (arg1 arg2 res1 res2 : list ptr) (m : mem)
    (ins : list (list casadi_real)) (r1 r2 : ptr)
    (old1 old2 : list casadi_real) :
  layout_ok m = true → 0 < SZ_RES k → n_in k ≤ SZ_ARG k →
  caller_inputs k m arg1 = Some ins →
  caller_inputs k m arg2 = Some ins →
  res1 !! 0%nat = Some r1 → caller_owned r1 = true →
  res2 !! 0%nat = Some r2 → caller_owned r2 = true →
  read_vec m r1 (Z.of_nat (length (snd (k_value (km k) ins)))) = Some old1 →
  read_vec m r2 (Z.of_nat (length (snd (k_value (km k) ins)))) = Some old2 →
  regions_disjoint r1 (Z.of_nat (length (snd (k_value (km k) ins))))
    r2 (Z.of_nat (length (snd (k_value (km k) ins)))) = true →
  inputs_apart k arg2 r1 (Z.of_nat (length (snd (k_value (km k) ins)))) = true →
  ∃ c m1 m2,
    dispatch_modelled km k arg1 res1 m = Some (c, m1)
    ∧ dispatch_modelled km k arg2 res2 m1 = Some (c, m2)
    ∧ read_vec m2 r1 (Z.of_nat (length (snd (k_value (km k) ins))))
      = Some (snd (k_value (km k) ins))
    ∧ read_vec m2 r2 (Z.of_nat (length (snd (k_value (km k) ins))))
      = Some (snd (k_value (km k) ins)).
Proof.
  intros Hlay Hres Harg Hin1 Hin2 Hr1 Hown1 Hr2 Hown2 Hroom1 Hroom2 Hd Hapart.
  set (out := snd (k_value (km k) ins)) in *.
  set (m1 := after_call km k ins r1 m).
  assert (Hheap1 : ∀ i, reals m1 !! Caller i
                        = reals (write_vec r1 out m) !! Caller i).
  { intros i. by apply caller_heap_after_call. }
  assert (Hlay1 : layout_ok m1 = true) by by eapply layout_ok_after_call.
  assert (Hin1' : caller_inputs k m1 arg2 = Some ins).
  { rewrite (caller_inputs_ext k _ m1 arg2 Hheap1).
    by rewrite (caller_inputs_write_vec k m arg2 r1 out old1). }
  assert (Hroom2' : read_vec m1 r2 (Z.of_nat (length out)) = Some old2).
  { rewrite (read_vec_caller _ m1 r2 _ Hown2 Hheap1).
    rewrite (read_vec_write_vec_disjoint m r1 out r2 _ old1); [done|done|].
    by rewrite regions_disjoint_sym. }
  assert (Hout1 : read_vec m1 r1 (Z.of_nat (length out)) = Some out).
  { rewrite (read_vec_caller _ m1 r1 _ Hown1 Hheap1).
    by eapply read_vec_write_vec. }
  exists (fst (k_value (km k) ins)), m1, (after_call km k ins r2 m1).
  split; [by eapply dispatch_modelled_run|].
  split; [by eapply dispatch_modelled_run|].
  split.
  - rewrite read_vec_after_call by done. fold out.
    by rewrite (read_vec_write_vec_disjoint m1 r2 out r1 _ old2).
  - rewrite read_vec_after_call by done. by eapply read_vec_write_vec.
Qed.

(** C9. Each dispatch function calls its kernel with that kernel's own
    integer and real scratch arenas and a null auxiliary-memory handle.  The
    arenas of two kernels are distinct objects, and an arena is null exactly
    when its declared size is zero.  Hence the scratch of one kernel does
    not influence the call of another: overwriting the arenas of [k'] with
    arbitrary values changes neither the status, nor the caller's memory,
    nor the scratch that a call of another kernel [k] leaves. *)
Theorem scratch_arenas_dedicated
    (K : casadi_kernels) (k k' : kernel_id) (arg res : list ptr) (m : mem)
    (ins : list (list casadi_real)) (r : ptr) (old : list casadi_real)
    (ji : list casadi_int) (jr : list casadi_real) :
  k' ≠ k →
  0 ≤ SZ_IW k → 0 ≤ SZ_W k →
  layout_ok m = true → 0 < SZ_RES k → n_in k ≤ SZ_ARG k →
  caller_inputs k m arg = Some ins →
  res !! 0%nat = Some r → caller_owned r = true →
  read_vec m r (Z.of_nat (length (snd (k_value (km k) ins)))) = Some old →
  @dispatch _ K k arg res m
  = @kernel_of K k (argument_view k) (result_space k)
      (allocated_i_workspace k) (allocated_r_workspace k) NULL
      (at_invoke k ins r m)
  ∧ allocated_i_workspace k
    = (if bool_decide (SZ_IW k = 0) then NULL else Ptr (IWork k) 0)
  ∧ allocated_r_workspace k
    = (if bool_decide (SZ_W k = 0) then NULL else Ptr (RWork k) 0)
  ∧ (allocated_i_workspace k = NULL ↔ SZ_IW k = 0)
  ∧ (allocated_r_workspace k = NULL ↔ SZ_W k = 0)
  ∧ (∀ p q b o b' o',
       p = allocated_i_workspace k ∨ p = allocated_r_workspace k →
       q = allocated_i_workspace k' ∨ q = allocated_r_workspace k' →
       p = Ptr b o → q = Ptr b' o' → b ≠ b')
  ∧ (∀ b o b' o',
       allocated_i_workspace k = Ptr b o →
       allocated_r_workspace k = Ptr b' o' → b ≠ b')
  ∧ ∃ c m1 m2,
      dispatch_modelled km k arg res m = Some (c, m1)
      ∧ dispatch_modelled km k arg res (corrupt_scratch k' ji jr m)
        = Some (c, m2)
      ∧ (∀ i, reals m2 !! Caller i = reals m1 !! Caller i)
      ∧ reals m2 !! RWork k = reals m1 !! RWork k
      ∧ ints m2 !! IWork k = ints m1 !! IWork k.
Proof.
  intros Hk Hiw Hw Hlay Hres Harg Hin Hr Hown Hroom.
  split; [by apply dispatch_invoke|].
  assert (Ei : allocated_i_workspace k
               = (if bool_decide (SZ_IW k = 0) then NULL else Ptr (IWork k) 0)).
  { rewrite allocated_i_workspace_eq. unfold static_array.
    repeat case_bool_decide; try done; lia. }
  assert (Er : allocated_r_workspace k
               = (if bool_decide (SZ_W k = 0) then NULL else Ptr (RWork k) 0)).
  { rewrite allocated_r_workspace_eq. unfold static_array.
    repeat case_bool_decide; try done; lia. }
  split; [done|]. split; [done|].
  split.
  { rewrite Ei. destruct (decide (SZ_IW k = 0)) as [E|E].
    - by rewrite bool_decide_eq_true_2.
    - rewrite bool_decide_eq_false_2 by done. split; [done|by intros ?]. }
  split.
  { rewrite Er. destruct (decide (SZ_W k = 0)) as [E|E].
    - by rewrite bool_decide_eq_true_2.
    - rewrite bool_decide_eq_false_2 by done. split; [done|by intros ?]. }
  split.
  { intros p q b o b' o' [-> | ->] [-> | ->] Hp Hq;
      first [apply allocated_i_workspace_block in Hp
            |apply allocated_r_workspace_block in Hp];
      first [apply allocated_i_workspace_block in Hq
            |apply allocated_r_workspace_block in Hq];
      subst; congruence. }
  split.
  { intros b o b' o' Hp%allocated_i_workspace_block
      Hq%allocated_r_workspace_block. by subst. }
  set (m' := corrupt_scratch k' ji jr m).
  assert (Hheap : ∀ i, reals m' !! Caller i = reals m !! Caller i)
    by (intros i; by apply corrupt_scratch_reals).
  assert (Hlay' : layout_ok m' = true).
  { rewrite <- Hlay. apply layout_ok_shape, same_shape_corrupt_scratch. }
  exists (fst (k_value (km k) ins)), (after_call km k ins r m),
    (after_call km k ins r m').
  split; [by eapply dispatch_modelled_run|].
  split.
  { eapply dispatch_modelled_run; try done.
    - by rewrite (caller_inputs_ext k m m' arg Hheap).
    - by rewrite (read_vec_caller m m' r _ Hown Hheap). }
  split.
  { intros i. rewrite !caller_heap_after_call by done.
    by apply reals_write_vec_caller. }
  assert (Hagree := scratch_step_agree (km k) ins k
                      (at_invoke k ins r m') (at_invoke k ins r m)).
  destruct Hagree as [Hreal Hint].
  { change (ints (at_invoke k ins r m')) with (ints m').
    change (ints (at_invoke k ins r m)) with (ints m).
    apply corrupt_scratch_ints. congruence. }
  { rewrite !reals_at_invoke by done.
    apply corrupt_scratch_reals. congruence. }
  split.
  - unfold after_call. by rewrite !reals_write_vec_static.
  - unfold after_call.
    by destruct r as [|b o].
Qed.

(** C10 (amended). A call of a dispatch function leaves the caller's input
    vectors [u], [xi] and [p] as they were whenever the cells the output is
    written to do not overlap them.  The dispatch layer itself never writes
    them, whether the output overlaps the inputs or not:
    - whatever the arguments and the memory, a call either goes wrong
      before any kernel is entered, or it enters its kernel in a memory
      that differs from the caller's at most in the packed workspace and in
      the result slot, so that the caller's input vectors read there as
      they did before the call;
    - on valid inputs and with any output pointer, the kernel is entered in
      the memory [at_invoke], where every block of the caller is as it
      was;
    - with the kernel of the specification, a caller-owned output buffer
      with room for the output and apart from the inputs, the call returns
      and the caller's input vectors are as they were. *)
Theorem inputs_unchanged_when_output_apart
    (k : kernel_id) (arg res : list ptr) (m : mem) :
  ((∀ K : casadi_kernels, @dispatch _ K k arg res m = None)
   ∨ ∃ m0,
       ints m0 = ints m
       ∧ (∀ b, b ≠ Uxip → reals m0 !! b = reals m !! b)
       ∧ (∀ b, b ≠ ResSlot k → ptrs m0 !! b = ptrs m !! b)
       ∧ (∀ k', caller_inputs k' m0 arg = caller_inputs k' m arg)
       ∧ ∀ K : casadi_kernels,
           @dispatch _ K k arg res m
           = @kernel_of K k (argument_view k) (result_space k)
               (allocated_i_workspace k) (allocated_r_workspace k) NULL m0)
  ∧ (∀ ins r,
       layout_ok m = true → 0 < SZ_RES k →
       caller_inputs k m arg = Some ins → res !! 0%nat = Some r →
       (∀ i, reals (at_invoke k ins r m) !! Caller i = reals m !! Caller i)
       ∧ caller_inputs k (at_invoke k ins r m) arg = Some ins
       ∧ ∀ K : casadi_kernels,
           @dispatch _ K k arg res m
           = @kernel_of K k (argument_view k) (result_space k)
               (allocated_i_workspace k) (allocated_r_workspace k) NULL
               (at_invoke k ins r m))
  ∧ (∀ ins r old,
       layout_ok m = true → 0 < SZ_RES k → n_in k ≤ SZ_ARG k →
       caller_inputs k m arg = Some ins →
       res !! 0%nat = Some r → caller_owned r = true →
       read_vec m r (Z.of_nat (length (snd (k_value (km k) ins))))
         = Some old →
       inputs_apart k arg r (Z.of_nat (length (snd (k_value (km k) ins))))
         = true →
       ∃ c m',
         dispatch_modelled km k arg res m = Some (c, m')
         ∧ caller_inputs k m' arg = Some ins).
Proof.
  split; [|split].
  - destruct (dispatch_enters_kernel k arg res m)
      as [Hnone|(m0 & Hi & Hr & Hp & Hk)]; [by left|].
    right. exists m0. repeat split; try done.
    intros k'. apply caller_inputs_ext. intros i. by apply Hr.
  - intros ins r Hlay Hres Hin Hr. split; [|split].
    + intros i. by apply reals_at_invoke.
    + rewrite <- Hin. apply caller_inputs_ext.
      intros i. by apply reals_at_invoke.
    + intros K. by apply dispatch_invoke.
  - intros ins r old Hlay Hres Harg Hin Hr Hown Hroom Hapart.
    exists (fst (k_value (km k) ins)), (after_call km k ins r m).
    split; [by eapply dispatch_modelled_run|].
    rewrite (caller_inputs_ext k
               (write_vec r (snd (k_value (km k) ins)) m)
               (after_call km k ins r m) arg)
      by (intros i; by apply caller_heap_after_call).
    by rewrite (caller_inputs_write_vec k m arg r _ old).
Qed.
End ModelledKernels.

Lemma mapping_independent_of_xi_region_witness :
  ∃ c m1 m2,
    @dispatch_modelled example_sizes example_kernels MapF1 example_arg_up
      [Ptr (Caller 3) 0] example_mem = Some (c, m1)
    ∧ @dispatch_modelled example_sizes example_kernels MapF1 example_arg_up
        [Ptr (Caller 3) 0] (poison_xi example_poison example_mem)
      = Some (c, m2)
    ∧ slice (uxip_contents (poison_xi example_poison example_mem))
        NU_NAVI_TEST NXI_NAVI_TEST = example_poison
    ∧ (∀ i, reals m2 !! Caller i = reals m1 !! Caller i)
    ∧ read_vec m1 (Ptr (Caller 3) 0) 40 = Some example_u
    ∧ read_vec m2 (Ptr (Caller 3) 0) 40 = Some example_u.
Proof.
  exact (@mapping_independent_of_xi_region example_sizes example_kernels
           MapF1 example_arg_up [Ptr (Caller 3) 0] example_mem
           [example_u; example_p] (Ptr (Caller 3) 0)
           (replicate 40 0%float) example_poison
           (or_introl eq_refl)
           ltac:(vm_compute; reflexivity) ltac:(vm_compute; reflexivity)
           ltac:(vm_compute; discriminate) ltac:(vm_compute; reflexivity)
           ltac:(vm_compute; reflexivity) ltac:(vm_compute; reflexivity)
           ltac:(vm_compute; reflexivity) ltac:(vm_compute; reflexivity)).
Defined.

Lemma dispatch_twice_same_result_witness :
  ∃ c m1 m2,
    @dispatch_modelled example_sizes example_kernels Grad example_arg
      [Ptr (Caller 3) 0] example_mem = Some (c, m1)
    ∧ @dispatch_modelled example_sizes example_kernels Grad example_arg
        [Ptr (Caller 4) 0] m1 = Some (c, m2)
    ∧ read_vec m2 (Ptr (Caller 3) 0) 40
      = Some ((λ x, PrimFloat.mul 2%float x) <$> example_u)
    ∧ read_vec m2 (Ptr (Caller 4) 0) 40
      = Some ((λ x, PrimFloat.mul 2%float x) <$> example_u).
Proof.
  exact (@dispatch_twice_same_result example_sizes example_kernels
           Grad example_arg example_arg [Ptr (Caller 3) 0] [Ptr (Caller 4) 0]
           example_mem example_ins_full (Ptr (Caller 3) 0) (Ptr (Caller 4) 0)
           (replicate 40 0%float) (replicate 40 0%float)
           ltac:(vm_compute; reflexivity) ltac:(vm_compute; reflexivity)
           ltac:(vm_compute; discriminate) ltac:(vm_compute; reflexivity)
           ltac:(vm_compute; reflexivity) ltac:(vm_compute; reflexivity)
           ltac:(vm_compute; reflexivity) ltac:(vm_compute; reflexivity)
           ltac:(vm_compute; reflexivity) ltac:(vm_compute; reflexivity)
           ltac:(vm_compute; reflexivity) ltac:(vm_compute; reflexivity)
           ltac:(vm_compute; reflexivity)).
Defined.

Lemma workspace_sized_for_reserved_parameters_witness :
  Z.of_nat (length example_p) = 2673
  ∧ (∃ m1, copy_args_into_uxip_space example_arg example_mem = Some (tt, m1)
           ∧ slice (uxip_contents m1)
               (NU_NAVI_TEST + NXI_NAVI_TEST) NP_NAVI_TEST = example_p)
  ∧ (∃ m2, copy_args_into_up_space example_arg_up example_mem = Some (tt, m2)
           ∧ slice (uxip_contents m2)
               (NU_NAVI_TEST + NXI_NAVI_TEST) NP_NAVI_TEST = example_p).
Proof.
  destruct (@workspace_sized_for_reserved_parameters example_sizes
              example_mem example_arg example_arg_up
              example_u example_xi example_p
              ltac:(vm_compute; reflexivity) ltac:(vm_compute; reflexivity)
              ltac:(vm_compute; reflexivity) ltac:(vm_compute; reflexivity)
              ltac:(vm_compute; reflexivity) ltac:(vm_compute; reflexivity))
    as (_ & _ & _ & _ & _ & _ & _ & Hlen & Hfull & Hup & _).
  exact (conj Hlen (conj Hfull Hup)).
Defined.

Lemma scratch_arenas_dedicated_witness :
  @allocated_i_workspace example_sizes Cost = NULL
  ∧ @allocated_r_workspace example_sizes Cost = Ptr (RWork Cost) 0
  ∧ ∃ c m1 m2,
      @dispatch_modelled example_sizes example_kernels Cost example_arg
        [Ptr (Caller 3) 0] example_mem = Some (c, m1)
      ∧ @dispatch_modelled example_sizes example_kernels Cost example_arg
          [Ptr (Caller 3) 0]
          (@corrupt_scratch example_sizes Grad [7; 7]
             (replicate 4 infinity) example_mem)
        = Some (c, m2)
      ∧ (∀ i, reals m2 !! Caller i = reals m1 !! Caller i)
      ∧ reals m2 !! RWork Cost = reals m1 !! RWork Cost
      ∧ ints m2 !! IWork Cost = ints m1 !! IWork Cost.
Proof.
  destruct (@scratch_arenas_dedicated example_sizes example_kernels
              (status_kernels 0 0 0 0) Cost Grad example_arg [Ptr (Caller 3) 0]
              example_mem example_ins_full (Ptr (Caller 3) 0)
              (replicate 1 0%float) [7; 7] (replicate 4 infinity)
              ltac:(discriminate) ltac:(vm_compute; discriminate)
              ltac:(vm_compute; discriminate)
              ltac:(vm_compute; reflexivity) ltac:(vm_compute; reflexivity)
              ltac:(vm_compute; discriminate) ltac:(vm_compute; reflexivity)
              ltac:(vm_compute; reflexivity) ltac:(vm_compute; reflexivity)
              ltac:(vm_compute; reflexivity))
    as (_ & Hi & Hr & _ & _ & _ & _ & Hiso).
  exact (conj Hi (conj Hr Hiso)).
Defined.

Lemma inputs_unchanged_when_output_apart_witness :
  (∃ c m',
     @dispatch_modelled example_sizes example_kernels Grad example_arg
       [Ptr (Caller 3) 0] example_mem = Some (c, m')
     ∧ caller_inputs Grad m' example_arg = Some example_ins_full)
  ∧ (∀ i, reals (at_invoke Grad example_ins_full (Ptr (Caller 0) 0)
                   example_mem) !! Caller i
          = reals example_mem !! Caller i)
  ∧ caller_inputs Grad
      (at_invoke Grad example_ins_full (Ptr (Caller 0) 0) example_mem)
      example_arg = Some example_ins_full
  ∧ ∀ K : casadi_kernels,
      @dispatch example_sizes K Grad example_arg [Ptr (Caller 0) 0]
        example_mem
      = @kernel_of K Grad (@argument_view example_sizes Grad)
          (@result_space example_sizes Grad)
          (@allocated_i_workspace example_sizes Grad)
          (@allocated_r_workspace example_sizes Grad) NULL
          (at_invoke Grad example_ins_full (Ptr (Caller 0) 0) example_mem).
Proof.
  exact (conj
    (proj2 (proj2 (@inputs_unchanged_when_output_apart example_sizes
       example_kernels Grad example_arg [Ptr (Caller 3) 0] example_mem))
       example_ins_full (Ptr (Caller 3) 0) (replicate 40 0%float)
       ltac:(vm_compute; reflexivity) ltac:(vm_compute; reflexivity)
       ltac:(vm_compute; discriminate) ltac:(vm_compute; reflexivity)
       ltac:(vm_compute; reflexivity) ltac:(vm_compute; reflexivity)
       ltac:(vm_compute; reflexivity) ltac:(vm_compute; reflexivity))
    (proj1 (proj2 (@inputs_unchanged_when_output_apart example_sizes
       example_kernels Grad example_arg [Ptr (Caller 0) 0] example_mem))
       example_ins_full (Ptr (Caller 0) 0)
       ltac:(vm_compute; reflexivity) ltac:(vm_compute; reflexivity)
       ltac:(vm_compute; reflexivity) ltac:(vm_compute; reflexivity))).
Defined.

(** C10 as stated fails: the gradient called in place, with the output
    pointer [res[0]] equal to the input pointer [arg[0]], returns with the
    caller's [u] overwritten by the gradient. *)
Lemma inputs_modified_when_output_is_u :
  ∃ m',
    @dispatch_modelled example_sizes example_kernels Grad example_arg
      [Ptr (Caller 0) 0] example_mem = Some (0, m')
    ∧ caller_owned (Ptr (Caller 0) 0) = true
    ∧ input_vec example_mem example_arg 0 NU_NAVI_TEST = Some example_u
    ∧ input_vec m' example_arg 0 NU_NAVI_TEST
      = Some ((λ x, PrimFloat.mul 2%float x) <$> example_u)
    ∧ input_vec m' example_arg 0 NU_NAVI_TEST
      ≠ input_vec example_mem example_arg 0 NU_NAVI_TEST.
Proof.
  exists (@after_call example_sizes example_kernels Grad example_ins_full
            (Ptr (Caller 0) 0) example_mem).
  split; [vm_compute; reflexivity|].
  split; [reflexivity|].
  split; [vm_compute; reflexivity|].
  split; [vm_compute; reflexivity|].
  intros E.
  apply (f_equal (λ o : option (list casadi_real),
                    match o with
                    | Some (_ :: x :: _) => PrimFloat.ltb x (-2)%float
                    | _ => false
                    end)) in E.
  vm_compute in E. discriminate E.
Qed.

(** * Further properties of the copy routines and the dispatch functions *)

(** X1. Whenever one of the two copy routines returns, on any arguments and
    any memory, it has written nothing but elements of [uxip_space]: the
    integer and pointer stores and every other real block are unchanged, the
    workspace has the size it had, and so the layout of the statics is
    kept. *)
Theorem copy_routines_write_only_workspace `{casadi_memory_h}
    (f : list ptr → M unit) (arg : list ptr) (m m' : mem) :
  f = copy_args_into_uxip_space ∨ f = copy_args_into_up_space →
  f arg m = Some (tt, m') →
  ints m' = ints m
  ∧ ptrs m' = ptrs m
  ∧ (∀ b, b ≠ Uxip → reals m' !! b = reals m !! b)
  ∧ length <$> reals m' !! Uxip = length <$> reals m !! Uxip
  ∧ layout_ok m' = layout_ok m.
Proof.
  intros Hf Hrun.
  assert (Ho : only_uxip m m').
  { destruct Hf as [-> | ->].
    - by apply only_uxip_copy_args_into_uxip_space in Hrun.
    - by apply only_uxip_copy_args_into_up_space in Hrun. }
  pose proof (layout_ok_shape m m' (only_uxip_same_shape m m' Ho)) as Hl.
  destruct Ho as (A & B & C & D). by repeat split.
Qed.

Lemma copy_routines_write_only_workspace_witness :
  ints (with_uxip (example_u ++ example_xi ++ example_p) example_mem)
  = ints example_mem
  ∧ ptrs (with_uxip (example_u ++ example_xi ++ example_p) example_mem)
    = ptrs example_mem
  ∧ (∀ b, b ≠ Uxip →
       reals (with_uxip (example_u ++ example_xi ++ example_p) example_mem) !! b
       = reals example_mem !! b)
  ∧ length <$> reals (with_uxip (example_u ++ example_xi ++ example_p)
                        example_mem) !! Uxip
    = length <$> reals example_mem !! Uxip
  ∧ @layout_ok example_sizes
      (with_uxip (example_u ++ example_xi ++ example_p) example_mem)
    = @layout_ok example_sizes example_mem.
Proof.
  exact (@copy_routines_write_only_workspace example_sizes
           copy_args_into_uxip_space example_arg example_mem
           (with_uxip (example_u ++ example_xi ++ example_p) example_mem)
           (or_introl eq_refl) ltac:(vm_compute; reflexivity)).
Defined.

(** ** Pointers and buffers the copy routines cannot use *)

Lemma for_lt_first_fails N (body : Z → M unit) m :
  0 < N → body 0 m = None → for_lt N body m = None.
Proof.
  intros HN Hb. with_strategy transparent [for_lt] (unfold for_lt).
  destruct (Z.to_nat N) as [|n] eqn:E; [lia|].
  cbn [for_from]. by rewrite (bind_None _ _ _ Hb).
Qed.

Lemma copy_step_bad_pointer (arg : list ptr) (k : nat) (dst : Z → ptr) i m :
  arg !! k = None ∨ arg !! k = Some NULL →
  (a ← deref arg k; x ← load_real (a +ₚ i); store_real (dst i) x) m = None.
Proof.
  intros [E | E]; unfold mbind, M_bind, deref; by rewrite E.
Qed.

(** Running [c2] after [c1] fails when [c2] fails on every memory. *)
Lemma bind_then_None (c1 : M unit) {B} (c2 : M B) m :
  (∀ m1, c2 m1 = None) → (c1 ≫= λ _, c2) m = None.
Proof.
  intros H2. destruct (c1 m) as [[[] m1]|] eqn:E1.
  - by rewrite (bind_Some _ _ _ _ _ E1).
  - by rewrite (bind_None _ _ _ E1).
Qed.

Lemma copy_args_into_uxip_space_bad_pointer arg (j : nat) m :
  (j < 3)%nat → arg !! j = None ∨ arg !! j = Some NULL →
  copy_args_into_uxip_space arg m = None.
Proof.
  intros Hj Hbad. unfold copy_args_into_uxip_space.
  destruct j as [|[|[|j]]]; [| | |lia].
  - apply bind_None. apply for_lt_first_fails; [done|].
    by apply (copy_step_bad_pointer arg 0 (λ i, uxip_space +ₚ i)).
  - apply bind_then_None. intros m1. apply bind_None.
    apply for_lt_first_fails; [done|].
    by apply (copy_step_bad_pointer arg 1 (λ i, uxip_space +ₚ (NU_NAVI_TEST + i))).
  - apply bind_then_None. intros m1. apply bind_then_None. intros m2.
    apply for_lt_first_fails; [done|].
    by apply (copy_step_bad_pointer arg 2
                (λ i, uxip_space +ₚ (NU_NAVI_TEST + NXI_NAVI_TEST + i))).
Qed.

Lemma copy_args_into_up_space_bad_pointer arg (j : nat) m :
  (j < 2)%nat → arg !! j = None ∨ arg !! j = Some NULL →
  copy_args_into_up_space arg m = None.
Proof.
  intros Hj Hbad. unfold copy_args_into_up_space.
  destruct j as [|[|j]]; [| |lia].
  - apply bind_None. apply for_lt_first_fails; [done|].
    by apply (copy_step_bad_pointer arg 0 (λ i, uxip_space +ₚ i)).
  - apply bind_then_None. intros m1.
    apply for_lt_first_fails; [done|].
    by apply (copy_step_bad_pointer arg 1
                (λ i, uxip_space +ₚ (NU_NAVI_TEST + NXI_NAVI_TEST + i))).
Qed.

Section Failures.
Context `{casadi_memory_h} `{casadi_kernels}.

(** A dispatch function whose copy routine fails never enters its kernel. *)
Lemma dispatch_pack_None k arg res m :
  pack k arg m = None → dispatch k arg res m = None.
Proof. intros Hp. rewrite dispatch_unfold. by apply bind_None. Qed.

(** X2. The copy routines check no pointer: if one of the argument pointers
    they read ([arg[0..2]] for the full copy, [arg[0..1]] for the reduced
    one) is null, or the argument array is too short to hold it, the routine
    fails, and the dispatch functions built on it fail without entering
    their kernel. *)
Theorem copy_routines_check_no_pointer
    (arg res : list ptr) (j : nat) (m : mem) :
  arg !! j = None ∨ arg !! j = Some NULL →
  ((j < 3)%nat →
     copy_args_into_uxip_space arg m = None
     ∧ cost_function_navi_test arg res m = None
     ∧ grad_cost_function_navi_test arg res m = None)
  ∧ ((j < 2)%nat →
       copy_args_into_up_space arg m = None
       ∧ mapping_f1_function_navi_test arg res m = None
       ∧ mapping_f2_function_navi_test arg res m = None).
Proof.
  intros Hbad. split; intros Hj.
  - pose proof (copy_args_into_uxip_space_bad_pointer arg j m Hj Hbad) as E.
    split; [done|].
    split; [by apply (dispatch_pack_None Cost)|by apply (dispatch_pack_None Grad)].
  - pose proof (copy_args_into_up_space_bad_pointer arg j m Hj Hbad) as E.
    split; [done|].
    split; [by apply (dispatch_pack_None MapF1)|by apply (dispatch_pack_None MapF2)].
Qed.


(** X4. A dispatch function whose result array is declared with no element
    ([*_SZ_RES <= 0], so that [result_space_*] is the null pointer) fails on
    every call, whatever the kernel, as does a call whose [res] array is
    empty: [result_space[0] = res[0]] cannot be executed, and the kernel is
    not entered. *)
Theorem dispatch_needs_result_slot
    (k : kernel_id) (arg res : list ptr) (m : mem) :
  SZ_RES k ≤ 0 ∨ res !! 0%nat = None →
  dispatch k arg res m = None.
Proof.
  intros Hbad. rewrite dispatch_unfold. apply bind_then_None. intros m1.
  apply bind_None. unfold mbind, M_bind, deref.
  destruct (res !! 0%nat) as [r|] eqn:Hr; [|done].
  destruct Hbad as [Hsz | ?]; [|done].
  assert (result_space k = NULL) as ->; [|done].
  assert (result_space k = static_array (SZ_RES k) (ResSlot k)) as ->
    by by destruct k.
  unfold static_array. by rewrite bool_decide_eq_false_2 by lia.
Qed.
End Failures.

Lemma copy_routines_check_no_pointer_witness :
  copy_args_into_uxip_space [Ptr (Caller 0) 0; NULL; Ptr (Caller 2) 0]
    example_mem = None
  ∧ @cost_function_navi_test example_sizes (status_kernels 0 0 0 0)
      [Ptr (Caller 0) 0; NULL; Ptr (Caller 2) 0] [Ptr (Caller 3) 0]
      example_mem = None
  ∧ @grad_cost_function_navi_test example_sizes (status_kernels 0 0 0 0)
      [Ptr (Caller 0) 0; NULL; Ptr (Caller 2) 0] [Ptr (Caller 3) 0]
      example_mem = None.
Proof.
  exact (proj1 (@copy_routines_check_no_pointer example_sizes
                  (status_kernels 0 0 0 0)
                  [Ptr (Caller 0) 0; NULL; Ptr (Caller 2) 0]
                  [Ptr (Caller 3) 0] 1%nat example_mem
                  (or_intror eq_refl))
           ltac:(lia)).
Defined.


Lemma dispatch_needs_result_slot_witness :
  @dispatch example_sizes_no_result (status_kernels 0 0 0 0) Cost
    example_arg [Ptr (Caller 3) 0]
    (@static_init example_sizes_no_result example_heap) = None.
Proof.
  apply (@dispatch_needs_result_slot example_sizes_no_result
           (status_kernels 0 0 0 0) Cost example_arg [Ptr (Caller 3) 0]
           (@static_init example_sizes_no_result example_heap)).
  left. vm_compute. discriminate.
Defined.

(** ** The copy routines composed *)

Lemma layout_ok_with_uxip `{casadi_memory_h} w m :
  layout_ok m = true → Z.of_nat (length w) = sizeof_uxip_space →
  layout_ok (with_uxip w m) = true.
Proof.
  intros Hlay Hlen. destruct (layout_ok_uxip m Hlay) as (w0 & Hw0 & Hlen0).
  rewrite <- Hlay. apply layout_ok_shape.
  apply (same_shape_with_uxip w0); [done|lia].
Qed.

Lemma caller_inputs_with_uxip k w m arg :
  caller_inputs k (with_uxip w m) arg = caller_inputs k m arg.
Proof.
  apply caller_inputs_ext. intros i.
  unfold with_uxip, set_real. simpl. by rewrite lookup_insert_ne.
Qed.

Lemma uxip_contents_with_uxip w m : uxip_contents (with_uxip w m) = w.
Proof. unfold uxip_contents. by rewrite reals_with_uxip. Qed.

Lemma packed_full k u xi p w w' :
  k = Cost ∨ k = Grad → packed k [u; xi; p] w = packed k [u; xi; p] w'.
Proof. by intros [-> | ->]. Qed.

Lemma pack_with_uxip `{casadi_memory_h} k m arg ins w :
  layout_ok m = true → caller_inputs k m arg = Some ins →
  Z.of_nat (length w) = sizeof_uxip_space →
  pack k arg (with_uxip w m) = Some (tt, with_uxip (packed k ins w) m).
Proof.
  intros Hlay Hin Hlen.
  rewrite (pack_run k (with_uxip w m) arg ins).
  - by rewrite uxip_contents_with_uxip, with_uxip_twice.
  - by apply layout_ok_with_uxip.
  - by rewrite caller_inputs_with_uxip.
Qed.

(** X5. The cost and the gradient forget the packed workspace: with valid
    inputs, their copy routine and the whole call give the same result
    whatever the workspace held before, for every kernel. *)
Theorem full_copy_forgets_workspace `{casadi_memory_h} `{casadi_kernels}
    (k : kernel_id) (arg res : list ptr) (m : mem)
    (ins : list (list casadi_real)) (w : list casadi_real) :
  k = Cost ∨ k = Grad →
  layout_ok m = true → caller_inputs k m arg = Some ins →
  Z.of_nat (length w) = sizeof_uxip_space →
  pack k arg (with_uxip w m) = pack k arg m
  ∧ dispatch k arg res (with_uxip w m) = dispatch k arg res m.
Proof.
  intros Hk Hlay Hin Hlen.
  assert (Hp : pack k arg (with_uxip w m) = pack k arg m).
  { rewrite (pack_with_uxip k m arg ins w) by done.
    rewrite (pack_run k m arg ins) by done.
    apply caller_inputs_full in Hin as Hins; [|done].
    destruct Hins as (u & xi & p & -> & _).
    by rewrite (packed_full k u xi p w (uxip_contents m)). }
  split; [done|].
  rewrite !dispatch_unfold. unfold mbind at 1 4, M_bind at 1 4.
  by rewrite Hp.
Qed.

Lemma full_copy_forgets_workspace_witness :
  pack Grad example_arg
    (with_uxip (replicate 2754 7%float) example_mem)
  = pack Grad example_arg example_mem
  ∧ @dispatch example_sizes (status_kernels 0 0 0 0) Grad example_arg
      [Ptr (Caller 3) 0] (with_uxip (replicate 2754 7%float) example_mem)
    = @dispatch example_sizes (status_kernels 0 0 0 0) Grad example_arg
        [Ptr (Caller 3) 0] example_mem.
Proof.
  apply (@full_copy_forgets_workspace example_sizes (status_kernels 0 0 0 0)
           Grad example_arg [Ptr (Caller 3) 0] example_mem example_ins_full
           (replicate 2754 7%float)).
  - by right.
  - vm_compute; reflexivity.
  - vm_compute; reflexivity.
  - vm_compute; reflexivity.
Defined.

(** X6. The two copy routines composed.  A reduced copy of [(u', p')] after
    a full copy of [(u, xi, p)] leaves the workspace holding
    [u' ++ xi ++ p']: the multipliers of the earlier call stay in place.  A
    full copy after a reduced copy leaves only what the full copy wrote. *)
Theorem reduced_copy_after_full_copy
    (m : mem) (arg arg' : list ptr) (u xi p u' p' w : list casadi_real) :
  input_vec m arg 0 NU_NAVI_TEST = Some u →
  input_vec m arg 1 NXI_NAVI_TEST = Some xi →
  input_vec m arg 2 NP_NAVI_TEST = Some p →
  input_vec m arg' 0 NU_NAVI_TEST = Some u' →
  input_vec m arg' 1 NP_NAVI_TEST = Some p' →
  reals m !! Uxip = Some w →
  Z.of_nat (length w) = sizeof_uxip_space →
  (copy_args_into_uxip_space arg;; copy_args_into_up_space arg') m
  = Some (tt, with_uxip (u' ++ xi ++ p') m)
  ∧ (copy_args_into_up_space arg';; copy_args_into_uxip_space arg) m
    = Some (tt, with_uxip (u ++ xi ++ p) m).
Proof.
  intros Hu Hxi Hp Hu' Hp' Hw Hlen.
  pose proof (input_vec_length _ _ _ _ _ Hu) as Lu.
  pose proof (input_vec_length _ _ _ _ _ Hxi) as Lxi.
  pose proof (input_vec_length _ _ _ _ _ Hp) as Lp.
  pose proof (input_vec_length _ _ _ _ _ Hu') as Lu'.
  pose proof (input_vec_length _ _ _ _ _ Hp') as Lp'.
  split.
  - rewrite (bind_Some _ _ _ _ _
               (copy_args_into_uxip_space_run m arg u xi p w Hu Hxi Hp Hw Hlen)).
    rewrite (copy_args_into_up_space_run _ arg' u' p' (u ++ xi ++ p)).
    + rewrite with_uxip_twice, slice_app_r by done.
      by rewrite slice_app_l by done.
    + by rewrite input_vec_with_uxip.
    + by rewrite input_vec_with_uxip.
    + apply reals_with_uxip.
    + rewrite !length_app. dims.
  - rewrite (bind_Some _ _ _ _ _
               (copy_args_into_up_space_run m arg' u' p' w Hu' Hp' Hw Hlen)).
    rewrite (copy_args_into_uxip_space_run _ arg u xi p
               (u' ++ slice w NU_NAVI_TEST NXI_NAVI_TEST ++ p')).
    + by rewrite with_uxip_twice.
    + by rewrite input_vec_with_uxip.
    + by rewrite input_vec_with_uxip.
    + by rewrite input_vec_with_uxip.
    + apply reals_with_uxip.
    + rewrite !length_app, slice_length; dims.
Qed.

Lemma reduced_copy_after_full_copy_witness :
  (copy_args_into_uxip_space example_arg;;
   copy_args_into_up_space [Ptr (Caller 3) 0; Ptr (Caller 2) 0]) example_mem
  = Some (tt, with_uxip (replicate 40 0%float ++ example_xi ++ example_p)
                example_mem)
  ∧ (copy_args_into_up_space [Ptr (Caller 3) 0; Ptr (Caller 2) 0];;
     copy_args_into_uxip_space example_arg) example_mem
    = Some (tt, with_uxip (example_u ++ example_xi ++ example_p) example_mem).
Proof.
  apply (reduced_copy_after_full_copy example_mem example_arg
           [Ptr (Caller 3) 0; Ptr (Caller 2) 0]
           example_u example_xi example_p (replicate 40 0%float) example_p
           (replicate 2754 0%float));
    (vm_compute; reflexivity).
Defined.

(** X7. Copying twice is copying once: on valid inputs the copy routine of
    each kernel, run a second time on the same arguments, changes
    nothing. *)
Theorem pack_idempotent `{casadi_memory_h}
    (k : kernel_id) (arg : list ptr) (m : mem)
    (ins : list (list casadi_real)) :
  layout_ok m = true → caller_inputs k m arg = Some ins →
  (pack k arg;; pack k arg) m = pack k arg m
  ∧ ∃ m', pack k arg m = Some (tt, m').
Proof.
  intros Hlay Hin.
  pose proof (pack_run k m arg ins Hlay Hin) as Hrun.
  split; [|by eexists].
  rewrite (bind_Some _ _ _ _ _ Hrun), Hrun.
  destruct (layout_ok_uxip m Hlay) as (w & Hw & Hlen).
  rewrite (pack_with_uxip k m arg ins) by
    (try done; rewrite (length_packed k m arg ins Hlay Hin);
     unfold uxip_contents; by rewrite Hw).
  do 3 f_equal. unfold uxip_contents. rewrite Hw. simpl.
  destruct k.
  1,2: apply caller_inputs_full in Hin as (u & xi & p & -> & _);
    [done|by auto].
  1,2: apply caller_inputs_reduced in Hin as (u & p & -> & Hu & Hp);
    [|by auto];
    apply input_vec_length in Hu, Hp; simpl; do 2 f_equal;
    rewrite slice_app_r by done; apply slice_app_l;
    rewrite slice_length; dims.
Qed.

Lemma pack_idempotent_witness :
  (pack MapF1 example_arg_up;; pack MapF1 example_arg_up) example_mem
  = pack MapF1 example_arg_up example_mem
  ∧ ∃ m', pack MapF1 example_arg_up example_mem = Some (tt, m').
Proof.
  apply (@pack_idempotent example_sizes MapF1 example_arg_up example_mem
           [example_u; example_p]);
    (vm_compute; reflexivity).
Defined.

(** ** The stores of the copy routines *)





